(** * SawitDB: the pager (Pager.js) and the permission check (SecurityManager.js)

    A shallow embedding of the two classes in Rocq.

    - Node [Buffer]s are mutable objects that the pager hands out and keeps
      in its cache at the same time, so buffers live in a heap and the code
      passes references ([BufRef]) around, as JavaScript does.
    - The page cache is a JavaScript [Map]: an association list in insertion
      order, whose [set] keeps the position of a key that is already there.
    - [fs] is a table of files (path to contents) and a table of open file
      descriptors.  The synchronous calls either return or throw.
    - A method is a function from the state to an outcome: a returned value
      or a thrown error, each with the state reached at that point. *)

From Stdlib Require Import ZArith NArith Lia List String Ascii.
From stdpp Require Import base option list strings gmap.
From coqutil Require Import Byte Word.LittleEndianList.

#[local] Open Scope string_scope.
#[local] Open Scope list_scope.
#[local] Open Scope nat_scope.

(** ** Constants of Pager.js *)

Definition PAGE_SIZE : nat := 4096.
Definition MAGIC : string := "WOWO".

Abbreviation byte := Init.Byte.byte.
Abbreviation Buffer := (list byte).
Abbreviation BufRef := nat.
Abbreviation PageId := N.

(** ** JavaScript [Map], keyed by page-id, in insertion order *)

Module JsMap.
Section WithValue.
Context {V : Type}.

Definition t : Type := list (PageId * V).

Definition key_is (k : PageId) (e : PageId * V) : bool := N.eqb (fst e) k.

Definition has (k : PageId) (m : t) : bool := existsb (key_is k) m.

Fixpoint get (k : PageId) (m : t) : option V :=
  match m with
  | [] => None
  | e :: m' => if key_is k e then Some (snd e) else get k m'
  end.

Definition delete (k : PageId) (m : t) : t :=
  List.filter (fun e => negb (key_is k e)) m.

Definition replace_at (k : PageId) (v : V) (e : PageId * V) : PageId * V :=
  if key_is k e then (k, v) else e.

(** [set] on a key that is present replaces the value where the key
    stands; only a new key goes to the end. *)
Definition set (k : PageId) (v : V) (m : t) : t :=
  if has k m then map (replace_at k v) m else m ++ [(k, v)].

Definition size (m : t) : nat := length m.

(** [m.keys().next().value]: the oldest key, [undefined] when empty. *)
Definition first_key (m : t) : option PageId := head (map fst m).

(** The key at the most-recently-inserted end. *)
Definition last_key (m : t) : option PageId := last (map fst m).

Definition clear (m : t) : t := [].
End WithValue.
Arguments t : clear implicits.
End JsMap.

(** ** Errors and outcomes *)

Inductive JsError : Type :=
| SystemError (code : string)   (* thrown by fs: EBADF, ENOENT, EOF, ... *)
| TypeError (code : string)     (* ERR_INVALID_ARG_TYPE *)
| RangeError (code : string)    (* ERR_OUT_OF_RANGE *)
| PlainError (message : string) (* new Error(message) *).

(** [e.code] *)
Definition code (e : JsError) : option string :=
  match e with
  | SystemError c | TypeError c | RangeError c => Some c
  | PlainError _ => None
  end.

(** ** State: the file system, the buffer heap and the pager object *)

Record State : Type := mkState {
  files : gmap string (list byte);      (* path -> contents *)
  fdtab : list (option string);         (* fd -> path, None once closed *)
  heap : list Buffer;                   (* BufRef -> bytes *)
  filePath : string;                    (* this.filePath *)
  fd : option nat;                      (* this.fd, None for null *)
  cache : JsMap.t BufRef;               (* this.cache *)
  cacheLimit : nat                      (* this.cacheLimit *)
}.

Definition set_files (f : gmap string (list byte)) (s : State) : State :=
  mkState f (fdtab s) (heap s) (filePath s) (fd s) (cache s) (cacheLimit s).
Definition set_fdtab (t : list (option string)) (s : State) : State :=
  mkState (files s) t (heap s) (filePath s) (fd s) (cache s) (cacheLimit s).
Definition set_heap (h : list Buffer) (s : State) : State :=
  mkState (files s) (fdtab s) h (filePath s) (fd s) (cache s) (cacheLimit s).
Definition set_fd (d : option nat) (s : State) : State :=
  mkState (files s) (fdtab s) (heap s) (filePath s) d (cache s) (cacheLimit s).
Definition set_cache (c : JsMap.t BufRef) (s : State) : State :=
  mkState (files s) (fdtab s) (heap s) (filePath s) (fd s) c (cacheLimit s).

Inductive outcome (A : Type) : Type :=
| Return (a : A) (s : State)
| Throw (e : JsError) (s : State).
Arguments Return {A} a s.
Arguments Throw {A} e s.

Definition state_of {A} (o : outcome A) : State :=
  match o with Return _ s | Throw _ s => s end.

(** The value a call returned, none when it threw. *)
Definition returned {A} (o : outcome A) : option A :=
  match o with Return a _ => Some a | Throw _ _ => None end.

Definition M (A : Type) : Type := State -> outcome A.

#[export] Instance M_ret : MRet M := fun A a s => Return a s.
#[export] Instance M_bind : MBind M := fun A B f m s =>
  match m s with
  | Return a s' => f a s'
  | Throw e s' => Throw e s'
  end.

Definition throw {A} (e : JsError) : M A := fun s => Throw e s.
Definition gets {A} (f : State -> A) : M A := fun s => Return (f s) s.
Definition modify (f : State -> State) : M unit := fun s => Return tt (f s).

(** [try { body } catch (e) { handler e }] *)
Definition try_catch {A} (body : M A) (handler : JsError -> M A) : M A :=
  fun s =>
    match body s with
    | Return a s' => Return a s'
    | Throw e s' => handler e s'
    end.

(** ** Node [Buffer] *)

Definition zeros (n : nat) : list byte := replicate n Byte.x00.

(** The bytes of a buffer; no reference dangles in JavaScript, the default
    only makes the lookup total. *)
Definition bytes_of (s : State) (buf : BufRef) : Buffer := default [] (heap s !! buf).

(** [Buffer.alloc(size)]: a fresh zero-filled buffer. *)
Definition Buffer_alloc (size : nat) : M BufRef :=
  fun s => Return (length (heap s)) (set_heap (heap s ++ [zeros size]) s).

(** [buf.length] *)
Definition Buffer_length (buf : BufRef) : M nat :=
  gets (fun s => length (bytes_of s buf)).

(** Overwrite [data] into [b] at [offset]; the length of [b] is kept. *)
Definition splice (b : list byte) (offset : nat) (data : list byte) : list byte :=
  take offset b ++ data ++ drop (offset + length data) b.

(** [buf.write(str, offset)]: as many bytes of the string as fit. *)
Definition Buffer_write (buf : BufRef) (str : string) (offset : nat) : M nat :=
  fun s =>
    let b := bytes_of s buf in
    let data := take (length b - offset) (list_byte_of_string str) in
    Return (length data) (set_heap (<[buf := splice b offset data]> (heap s)) s).

(** [buf.readUIntLE]-family: [width] bytes, least significant first. *)
Definition Buffer_readUIntLE (width : nat) (buf : BufRef) (offset : nat) : M N :=
  fun s =>
    let b := bytes_of s buf in
    if decide (offset + width <= length b)
    then Return (Z.to_N (le_combine (take width (drop offset b)))) s
    else Throw (RangeError "ERR_OUT_OF_RANGE") s.

(** [buf.writeUIntLE]-family: the value is range-checked first, then the
    offset; nothing is written when either check fails. *)
Definition Buffer_writeUIntLE (width : nat) (buf : BufRef) (value : N) (offset : nat)
  : M nat :=
  fun s =>
    let b := bytes_of s buf in
    if decide (value < 2 ^ (8 * N.of_nat width))%N
    then if decide (offset + width <= length b)
         then Return (offset + width)
                (set_heap (<[buf := splice b offset (le_split width (Z.of_N value))]> (heap s)) s)
         else Throw (RangeError "ERR_OUT_OF_RANGE") s
    else Throw (RangeError "ERR_OUT_OF_RANGE") s.

Definition Buffer_readUInt32LE := Buffer_readUIntLE 4.
Definition Buffer_writeUInt32LE := Buffer_writeUIntLE 4.
Definition Buffer_writeUInt16LE := Buffer_writeUIntLE 2.
Definition Buffer_readUInt16LE := Buffer_readUIntLE 2.

(** ** Node [fs], synchronous calls *)

Inductive OpenFlags : Type := Flags_w_plus | Flags_r_plus.

(** What a positioned read of [len] bytes at [pos] finds in a file: short
    at the end of the file, empty past it. *)
Definition file_pread (content : list byte) (pos len : nat) : list byte :=
  take len (drop pos content).

(** A positioned write; a gap between the end of the file and [pos] reads
    as zeros afterwards. *)
Definition file_pwrite (content : list byte) (pos : nat) (data : list byte) : list byte :=
  take pos (content ++ zeros (pos - length content)) ++ data
    ++ drop (pos + length data) content.

(** The path an open descriptor stands for. *)
Definition fd_path (s : State) (d : nat) : option string := mjoin (fdtab s !! d).

(** The contents of the file behind an open descriptor. *)
Definition fd_content (s : State) (d : nat) : option (list byte) :=
  p ← fd_path s d; files s !! p.

(** [fs.existsSync(path)] *)
Definition fs_existsSync (path : string) : M bool :=
  gets (fun s => bool_decide (is_Some (files s !! path))).

(** [fs.openSync(path, flags)]: ['w+'] creates or truncates, ['r+'] needs
    the file to exist.  The descriptor returned is a new one. *)
Definition fs_openSync (path : string) (flags : OpenFlags) : M nat :=
  fun s =>
    match flags with
    | Flags_w_plus =>
        Return (length (fdtab s))
          (set_fdtab (fdtab s ++ [Some path]) (set_files (<[path := []]> (files s)) s))
    | Flags_r_plus =>
        match files s !! path with
        | Some _ => Return (length (fdtab s)) (set_fdtab (fdtab s ++ [Some path]) s)
        | None => Throw (SystemError "ENOENT") s
        end
    end.

(** [fs.readSync(fd, buffer, offset, length, position)]: copies what the
    file has at [position] into the buffer at [offset] and returns the
    number of bytes read; at or past the end of the file that is 0 and
    nothing is thrown.  A null [fd] is a TypeError. *)
Definition fs_readSync (d : option nat) (buffer : BufRef) (offset len position : nat)
  : M nat :=
  fun s =>
    match d with
    | None => Throw (TypeError "ERR_INVALID_ARG_TYPE") s
    | Some n =>
        match fd_content s n with
        | None => Throw (SystemError "EBADF") s
        | Some content =>
            let data := file_pread content position len in
            Return (length data)
              (set_heap (<[buffer := splice (bytes_of s buffer) offset data]> (heap s)) s)
        end
    end.

(** [fs.writeSync(fd, buffer, offset, length, position)] *)
Definition fs_writeSync (d : option nat) (buffer : BufRef) (offset len position : nat)
  : M nat :=
  fun s =>
    match d with
    | None => Throw (TypeError "ERR_INVALID_ARG_TYPE") s
    | Some n =>
        match fd_path s n with
        | None => Throw (SystemError "EBADF") s
        | Some path =>
            match files s !! path with
            | None => Throw (SystemError "EBADF") s
            | Some content =>
                let data := take len (drop offset (bytes_of s buffer)) in
                Return (length data)
                  (set_files (<[path := file_pwrite content position data]> (files s)) s)
            end
        end
    end.

(** [fs.closeSync(fd)] *)
Definition fs_closeSync (d : nat) : M unit :=
  fun s =>
    match fd_path s d with
    | None => Throw (SystemError "EBADF") s
    | Some _ => Return tt (set_fdtab (<[d := None]> (fdtab s)) s)
    end.

(** ** class Pager *)

(** The cache once an insertion has pushed it over the limit: the oldest
    key goes. *)
Definition evict_over (limit : nat) (c : JsMap.t BufRef) : JsMap.t BufRef :=
  if decide (limit < JsMap.size c)
  then match JsMap.first_key c with
       | Some k => JsMap.delete k c
       | None => c
       end
  else c.

Definition _initNewFile : M unit :=
  buf ← Buffer_alloc PAGE_SIZE;
  Buffer_write buf MAGIC 0;;
  Buffer_writeUInt32LE buf 1 4;;   (* Total Pages = 1 *)
  Buffer_writeUInt32LE buf 0 8;;   (* Num Tables = 0 *)
  d ← gets fd;
  fs_writeSync d buf 0 PAGE_SIZE 0;;
  mret tt.

Definition _open : M unit :=
  path ← gets filePath;
  ex ← fs_existsSync path;
  if negb ex then
    d ← fs_openSync path Flags_w_plus;
    modify (set_fd (Some d));;
    _initNewFile
  else
    d ← fs_openSync path Flags_r_plus;
    modify (set_fd (Some d)).

(** [new Pager(filePath)], run in a process whose file system, descriptor
    table and heap are those of [s]; the pager fields of [s] are replaced
    by the new object's. *)
Definition Pager_new (path : string) : M unit :=
  modify (fun s => mkState (files s) (fdtab s) (heap s) path None [] 1000);;
  _open.

Definition readPage (pageId : PageId) : M BufRef :=
  c ← gets cache;
  match JsMap.get pageId c with
  | Some buf =>
      (* this.cache.has(pageId), see has_get: move to end *)
      modify (fun s => set_cache (JsMap.delete pageId (cache s)) s);;
      modify (fun s => set_cache (JsMap.set pageId buf (cache s)) s);;
      mret buf
  | None =>
      buf ← Buffer_alloc PAGE_SIZE;
      let offset := N.to_nat pageId * PAGE_SIZE in
      d ← gets fd;
      try_catch (fs_readSync d buf 0 PAGE_SIZE offset;; mret tt)
        (fun e => if decide (code e ≠ Some "EOF") then throw e else mret tt);;
      (* add to cache *)
      modify (fun s => set_cache (JsMap.set pageId buf (cache s)) s);;
      (* if (this.cache.size > this.cacheLimit) delete the first key *)
      modify (fun s => set_cache (evict_over (cacheLimit s) (cache s)) s);;
      mret buf
  end.

Definition writePage (pageId : PageId) (buf : BufRef) : M unit :=
  len ← Buffer_length buf;
  (if decide (len ≠ PAGE_SIZE) then throw (PlainError "Buffer must be 4KB") else mret tt);;
  let offset := N.to_nat pageId * PAGE_SIZE in
  d ← gets fd;
  fs_writeSync d buf 0 PAGE_SIZE offset;;
  (* update cache *)
  modify (fun s => set_cache (JsMap.set pageId buf (cache s)) s).

Definition allocPage : M PageId :=
  page0 ← readPage 0%N;
  totalPages ← Buffer_readUInt32LE page0 4;
  let newPageId := totalPages in
  let newTotal := (totalPages + 1)%N in
  Buffer_writeUInt32LE page0 newTotal 4;;
  writePage 0%N page0;;
  newPage ← Buffer_alloc PAGE_SIZE;
  Buffer_writeUInt32LE newPage 0 0;;   (* Next Page = 0 *)
  Buffer_writeUInt16LE newPage 0 4;;   (* Count = 0 *)
  Buffer_writeUInt16LE newPage 8 6;;   (* Free Offset = 8 *)
  writePage newPageId newPage;;
  mret newPageId.

Definition close : M unit :=
  d ← gets fd;
  match d with
  | Some n =>
      fs_closeSync n;;
      modify (set_fd None);;
      modify (fun s => set_cache (JsMap.clear (cache s)) s)
  | None => mret tt
  end.

(** ** Views of a pager state used by the statements *)

(** Little-endian fields of a page. *)
Definition u32_at (b : list byte) (offset : nat) : N :=
  Z.to_N (le_combine (take 4 (drop offset b))).
Definition u16_at (b : list byte) (offset : nat) : N :=
  Z.to_N (le_combine (take 2 (drop offset b))).

(** The byte at index [i], zero where the list has none. *)
Definition byte_at (c : list byte) (i : nat) : byte := default Byte.x00 (c !! i).

(** Page [p] of a file as a read into a fresh zeroed buffer sees it. *)
Definition file_page (content : list byte) (p : PageId) : list byte :=
  splice (zeros PAGE_SIZE) 0 (file_pread content (N.to_nat p * PAGE_SIZE) PAGE_SIZE).

(** The contents of the database file behind [this.fd]. *)
Definition disk (s : State) : list byte :=
  default [] (d ← fd s; fd_content s d).

Definition disk_page (s : State) (p : PageId) : list byte := file_page (disk s) p.

(** The header field "total pages" as stored in the file. *)
Definition disk_total (s : State) : N := u32_at (disk_page s 0%N) 4.

(** Page [p] as [readPage p] finds it: the cached buffer, else the file. *)
Definition page_view (s : State) (p : PageId) : list byte :=
  match JsMap.get p (cache s) with
  | Some r => bytes_of s r
  | None => disk_page s p
  end.

(** The "total pages" value [allocPage] reads. *)
Definition total_pages (s : State) : N := u32_at (page_view s 0%N) 4.

(** The pager holds a descriptor that is open on a file. *)
Definition opened (s : State) : Prop :=
  exists d content, fd s = Some d /\ fd_content s d = Some content.

(** Every cached buffer is a 4 KiB buffer. *)
Definition cache_ok (s : State) : Prop :=
  Forall (fun e => length (bytes_of s (snd e)) = PAGE_SIZE) (cache s).

Definition wf (s : State) : Prop := opened s /\ cache_ok s.

(** The bytes [B] are what the file has for page [p] and what
    [readPage p] would hand out. *)
Definition page_holds (p : PageId) (B : list byte) (s : State) : Prop :=
  wf s /\ disk_page s p = B /\ page_view s p = B.

(** The pager is open, the cache holds 4 KiB buffers, and both the file's
    header and the header [readPage 0] would hand out count [hi + 1]
    pages. *)
Definition counted (s : State) (hi : N) : Prop :=
  wf s /\ disk_total s = (hi + 1)%N /\ total_pages s = (hi + 1)%N.

(** The data page [allocPage] writes: next = 0, count = 0, free offset = 8. *)
Definition empty_data_page : list byte :=
  splice (splice (splice (zeros PAGE_SIZE) 0 (le_split 4 0)) 4 (le_split 2 0)) 6 (le_split 2 8).

(** ** Callers of the pager *)

(** [Buffer.from(bytes)]: a caller's buffer with contents of its choice. *)
Definition Buffer_from (bytes : list byte) : M BufRef :=
  fun s => Return (length (heap s)) (set_heap (heap s ++ [bytes]) s).

Inductive Call : Type :=
| CallAlloc
| CallRead (p : PageId)
| CallWrite (p : PageId) (buf : BufRef)
| CallBuffer (bytes : list byte).

(** The state a call leaves, whether it returns or throws (the caller may
    catch the error and go on). *)
Definition run_call (c : Call) (s : State) : State :=
  match c with
  | CallAlloc => state_of (allocPage s)
  | CallRead p => state_of (readPage p s)
  | CallWrite p buf => state_of (writePage p buf s)
  | CallBuffer bytes => state_of (Buffer_from bytes s)
  end.

Definition run_calls (cs : list Call) (s : State) : State :=
  foldl (fun st c => run_call c st) s cs.

(** The highest page-id handed out so far, after one more call. *)
Definition highest_after (c : Call) (s : State) (hi : N) : N :=
  match c with
  | CallAlloc => match allocPage s with Return pid _ => N.max hi pid | Throw _ _ => hi end
  | _ => hi
  end.

(** States reached from a freshly initialised file by calls that satisfy
    [ok], together with the highest page-id ever allocated (page 0, the
    header, is allocated by [_initNewFile]). *)
Inductive reachable (ok : State -> Call -> Prop) : State -> N -> Prop :=
| reach_init boot path s :
    files boot !! path = None ->
    Pager_new path boot = Return tt s ->
    reachable ok s 0%N
| reach_step s hi c :
    reachable ok s hi -> ok s c ->
    reachable ok (run_call c s) (highest_after c s hi).

Definition any_call (s : State) (c : Call) : Prop := True.

(** A write to page 0 keeps the header's "total pages" field. *)
Definition keeps_total (s : State) (c : Call) : Prop :=
  match c with
  | CallWrite p buf => p = 0%N -> u32_at (bytes_of s buf) 4 = disk_total s
  | _ => True
  end.

(** [buf.writeUInt8(value, offset)]: a store of one byte. *)
Definition Buffer_writeUInt8 := Buffer_writeUIntLE 1.

(** What may happen between a write and a later read: a call of the pager,
    or the caller storing a byte into a buffer it holds. *)
Inductive Step : Type :=
| StepCall (c : Call)
| StepStore (buf : BufRef) (value : N) (offset : nat).

Definition run_step (st : Step) (s : State) : State :=
  match st with
  | StepCall c => run_call c s
  | StepStore buf value offset => state_of (Buffer_writeUInt8 buf value offset s)
  end.

Definition run_steps (steps : list Step) (s : State) : State :=
  foldl (fun st x => run_step x st) s steps.

(** A step, taken in state [s], that stores neither to page [p] nor into
    the buffer cached for it.  [writePage] stores to the page it names.
    [allocPage] stores to page 0 and to the page it hands out, and it
    stores the new total into the buffer cached for page 0, which must then
    not be the buffer cached for [p] as well.  A store by the caller must
    go to another buffer than the one cached for [p]. *)
Definition keeps_page (p : PageId) (s : State) (st : Step) : Prop :=
  match st with
  | StepCall (CallRead _) | StepCall (CallBuffer _) => True
  | StepCall (CallWrite q _) => q <> p
  | StepCall CallAlloc =>
      p <> 0%N /\ p <> total_pages s
      /\ forall r, JsMap.get 0%N (cache s) = Some r -> JsMap.get p (cache s) <> Some r
  | StepStore buf _ _ => JsMap.get p (cache s) <> Some buf
  end.

(** Every step of the list keeps page [p], each in the state it is taken in. *)
Fixpoint keep_page (p : PageId) (steps : list Step) (s : State) : Prop :=
  match steps with
  | [] => True
  | st :: rest => keeps_page p s st /\ keep_page p rest (run_step st s)
  end.

(** [n] writes of one 4 KiB buffer to the pages 1 .. n. *)
Fixpoint write_pages (buf : BufRef) (n : nat) (s : State) : State :=
  match n with
  | 0 => s
  | S k => state_of (writePage (N.of_nat (S k)) buf (write_pages buf k s))
  end.

(** A caller that allocates [n] pages in a row (as [createTable] does one
    at a time) and collects the page-ids. *)
Fixpoint alloc_pages (n : nat) : M (list PageId) :=
  match n with
  | 0 => mret []
  | S k => pid ← allocPage; rest ← alloc_pages k; mret (pid :: rest)
  end.

(** The descriptor of the pager is open on the file named [this.filePath]. *)
Definition tied (s : State) : Prop :=
  exists d content,
    fd s = Some d /\ fd_path s d = Some (filePath s)
    /\ files s !! filePath s = Some content.

Definition is_read (c : Call) : Prop :=
  match c with CallRead _ => True | _ => False end.
(** A method keeps a property of the state, whether it returns or throws. *)
Definition preserves {A} (P : State -> Prop) (m : M A) : Prop :=
  forall s, P s -> P (state_of (m s)).

(** The keys of the cache are distinct, as the keys of a [Map] are. *)
Definition keys_distinct (s : State) : Prop := NoDup (map fst (cache s)).

(** A process with no files, no open descriptors and no buffers, and the
    pager a first [new Pager("kebun.sawit")] creates in it. *)
Definition boot : State := mkState ∅ [] [] "" None [] 0.
Definition fresh_db : State := state_of (Pager_new "kebun.sawit" boot).

(** The header page [_initNewFile] writes: magic, total pages 1, no tables. *)
Definition initial_header : list byte :=
  splice (splice (splice (zeros PAGE_SIZE) 0 (list_byte_of_string MAGIC)) 4 (le_split 4 1))
    8 (le_split 4 0).

(** A file whose header counts 2^32 - 1 pages, and a pager opened on it. *)
Definition boot_full : State :=
  mkState {[ "kebun.sawit" :=
               list_byte_of_string MAGIC
                 ++ [Byte.xff; Byte.xff; Byte.xff; Byte.xff] ++ zeros 4088 ]}
    [] [] "" None [] 0.
Definition full_db : State := state_of (Pager_new "kebun.sawit" boot_full).

(** An existing empty file, and a pager opened on it. *)
Definition boot_empty : State := mkState {[ "kebun.sawit" := [] ]} [] [] "" None [] 0.
Definition empty_db : State := state_of (Pager_new "kebun.sawit" boot_empty).

(** The same process with a file that does not start with the magic. *)
Definition boot_foreign : State :=
  mkState {[ "kebun.sawit" := list_byte_of_string "XXXX" ]} [] [] "" None [] 0.

(** ** class SecurityManager *)

Module SecurityManager.

Record Permission : Type := mkPermission {
  user : string;
  table : string;
  action : string
}.

(** [!user]: absent ([undefined] or [null], here [None]) or the empty
    string. *)
Definition falsy (u : option string) : bool :=
  match u with
  | None => true
  | Some name => String.eqb name ""
  end.

Definition show (u : option string) : string :=
  match u with
  | None => "undefined"
  | Some name => name
  end.

Definition matches (u : option string) (tbl act : string) (p : Permission) : bool :=
  bool_decide (Some (user p) = u)
  && (String.eqb (table p) tbl || String.eqb (table p) "*")
  && (String.eqb (action p) act || String.eqb (action p) "all").

Definition denied (u : option string) (tbl act : string) : JsError :=
  PlainError ("POS RONDA: Akses Ditolak! User '" +:+ show u
              +:+ "' tidak punya izin '" +:+ act +:+ "' di lahan '" +:+ tbl +:+ "'.").

(** [check(user, table, action)] over [this.permissions]: [inr true], or
    [inl] the error thrown. *)
Definition check (permissions : list Permission) (u : option string) (tbl act : string)
  : JsError + bool :=
  if falsy u then inr true
  else if bool_decide (u = Some "admin") then inr true
  else
    let hasPerm := existsb (matches u tbl act) permissions in
    if negb hasPerm then inl (denied u tbl act)
    else inr true.

(** What a sidecar file holds: JSON text, kept as the permission list it
    encodes ([JSON.parse(JSON.stringify(l))] is [l] for a list of records
    of strings), or text that [JSON.parse] rejects. *)
Inductive FileText : Type :=
| JsonText (l : list Permission)
| BadText.

(** A [SecurityManager] object and the files it reads and writes. *)
Record Manager : Type := mkManager {
  sidecars : gmap string FileText;      (* path -> contents *)
  permissions : list Permission;        (* this.permissions *)
  permissionsPath : option string       (* this.permissionsPath, None for null *)
}.

(** [new SecurityManager(engine)] *)
Definition Manager_new (fs : gmap string FileText) : Manager :=
  mkManager fs [] None.

(** [save()]: nothing while the path is null or empty. *)
Definition save (m : Manager) : Manager :=
  match permissionsPath m with
  | Some path =>
      if String.eqb path "" then m
      else mkManager (<[path := JsonText (permissions m)]> (sidecars m))
             (permissions m) (permissionsPath m)
  | None => m
  end.

(** [init()]; [path] is [path.join(this.engine.dbPath, '_permissions.json')]. *)
Definition init (path : string) (m : Manager) : Manager :=
  let m := mkManager (sidecars m) (permissions m) (Some path) in
  match sidecars m !! path with
  | Some (JsonText l) => mkManager (sidecars m) l (permissionsPath m)
  | Some BadText => mkManager (sidecars m) [] (permissionsPath m)
  | None => save m
  end.

(** [p.user === user && p.table === table && p.action === action] *)
Definition same (u tbl act : string) (p : Permission) : bool :=
  String.eqb (user p) u && String.eqb (table p) tbl && String.eqb (action p) act.

(** [grant(user, table, action)]: the message returned and the manager. *)
Definition grant (u tbl act : string) (m : Manager) : string * Manager :=
  let perms := List.filter (fun p => negb (same u tbl act p)) (permissions m) in
  let perms := perms ++ [mkPermission u tbl act] in
  ("Izin '" +:+ act +:+ "' diberikan kepada '" +:+ u +:+ "' untuk '" +:+ tbl +:+ "'.",
   save (mkManager (sidecars m) perms (permissionsPath m))).

(** [revoke(user, table, action)] *)
Definition revoke (u tbl act : string) (m : Manager) : string * Manager :=
  let initialLength := length (permissions m) in
  let perms := List.filter (fun p => negb (same u tbl act p)) (permissions m) in
  let m' := save (mkManager (sidecars m) perms (permissionsPath m)) in
  if decide (length (permissions m') < initialLength)
  then ("Izin '" +:+ act +:+ "' dicabut dari '" +:+ u +:+ "' untuk '" +:+ tbl +:+ "'.", m')
  else ("Izin tidak ditemukan.", m').

End SecurityManager.

(** ** class SearchManager *)

(** A JavaScript string is a [string] with one character per code unit, so
    the code units are below 256 (ASCII and Latin-1). *)
Module SearchManager.

(** A value found in a row: a string, or anything else. *)
Inductive JsValue : Type :=
| JsString (s : string)
| JsOther.

(** [c.toLowerCase()] of one code unit: A-Z, and the Latin-1 capitals
    U+00C0 .. U+00DE without the sign U+00D7. *)
Definition lower_char (c : ascii) : ascii :=
  let n := N_of_ascii c in
  if ((65 <=? n) && (n <=? 90) || (192 <=? n) && (n <=? 222) && negb (n =? 215))%N
  then ascii_of_N (n + 32)
  else c.

(** The class [\w]: A-Z, a-z, 0-9 and the underscore. *)
Definition is_word (c : ascii) : bool :=
  let n := N_of_ascii c in
  ((48 <=? n) && (n <=? 57) || (65 <=? n) && (n <=? 90)
   || (97 <=? n) && (n <=? 122) || (n =? 95))%N.

(** The class [\s] below 256: tab, line feed, vertical tab, form feed,
    carriage return, space and the no-break space. *)
Definition is_space (c : ascii) : bool :=
  let n := N_of_ascii c in
  ((9 <=? n) && (n <=? 13) || (n =? 32) || (n =? 160))%N.

(** The code units a token is made of: a-z, 0-9 and the underscore. *)
Definition is_token_char (c : ascii) : bool :=
  let n := N_of_ascii c in
  ((48 <=? n) && (n <=? 57) || (97 <=? n) && (n <=? 122) || (n =? 95))%N.

(** [s.split(/\s+/)] on the code units: the pieces between the maximal runs
    of white space, with an empty piece before a leading run and after a
    trailing one.  [cur] is the piece being read, reversed; [in_run] says
    that the last code unit was white space. *)
Fixpoint split_spaces (cs : list ascii) (cur : list ascii) (in_run : bool)
  : list (list ascii) :=
  match cs with
  | [] => [rev cur]
  | c :: rest =>
      if is_space c
      then if in_run then split_spaces rest cur true
           else rev cur :: split_spaces rest [] true
      else split_spaces rest (c :: cur) false
  end.

Definition stopWords : list string :=
  ["dan"; "atau"; "yang"; "di"; "ke"; "dari"; "ini"; "itu";
   "the"; "and"; "or"; "of"; "to"; "in"].

(** [this.stopWords.has(w)] *)
Definition is_stop_word (w : string) : bool := existsb (String.eqb w) stopWords.

Definition toLowerCase (s : string) : string :=
  string_of_list_ascii (map lower_char (list_ascii_of_string s)).

(** [tokenize(text)] *)
Definition tokenize (text : JsValue) : list string :=
  match text with
  | JsOther => []
  | JsString s =>
      if String.eqb s "" then []
      else
        let lowered := list_ascii_of_string (toLowerCase s) in
        let cleaned := List.filter (fun c => is_word c || is_space c) lowered in
        let pieces := map string_of_list_ascii (split_spaces cleaned [] false) in
        List.filter (fun w => (2 <? String.length w) && negb (is_stop_word w)) pieces
  end.

(** One posting of the inverted index: [{ t: table, id: id }]. *)
Record Entry : Type := mkEntry {
  t : string;
  id : N
}.

(** [entry.t === table && entry.id === id] *)
Definition same_row (table : string) (rowid : N) (e : Entry) : bool :=
  String.eqb (t e) table && N.eqb (id e) rowid.

(** The property names every object inherits from [Object.prototype]. *)
Definition inherited : list string :=
  ["constructor"; "__defineGetter__"; "__defineSetter__"; "hasOwnProperty";
   "__lookupGetter__"; "__lookupSetter__"; "isPrototypeOf"; "propertyIsEnumerable";
   "toString"; "valueOf"; "__proto__"; "toLocaleString"].

(** What [this.index[token]] evaluates to: the array stored under the
    token, a value inherited from the prototype (truthy, and without the
    array methods), or [undefined]. *)
Inductive Slot : Type :=
| Own (l : list Entry)
| Inherited
| Absent.

Definition index_get (ix : gmap string (list Entry)) (token : string) : Slot :=
  match ix !! token with
  | Some l => Own l
  | None => if existsb (String.eqb token) inherited then Inherited else Absent
  end.

(** The file [_fts_index.json]: JSON text, kept as the index it encodes, or
    text that [JSON.parse] rejects. *)
Inductive FtsText : Type :=
| JsonIndex (ix : gmap string (list Entry))
| BadIndex.

(** A [SearchManager] object and the files it reads and writes. *)
Record Search : Type := mkSearch {
  fts_files : gmap string FtsText;        (* path -> contents *)
  index : gmap string (list Entry);       (* this.index *)
  indexPath : option string               (* this.indexPath, None for null *)
}.

(** The TypeError of calling a method that the value does not have. *)
Inductive SearchError : Type :=
| NotAFunction (what : string).

(** [save()] *)
Definition save (s : Search) : Search :=
  match indexPath s with
  | Some path =>
      if String.eqb path "" then s
      else mkSearch (<[path := JsonIndex (index s)]> (fts_files s)) (index s) (indexPath s)
  | None => s
  end.

(** The body of the inner loop of [indexRow] for one token; [None] when
    [this.index[token].find] is not a function. *)
Definition index_token (table : string) (rowid : N) (token : string)
    (ix : gmap string (list Entry)) : option (gmap string (list Entry)) :=
  match index_get ix token with
  | Absent => Some (<[token := [mkEntry table rowid]]> ix)
  | Own l =>
      if existsb (same_row table rowid) l then Some ix
      else Some (<[token := l ++ [mkEntry table rowid]]> ix)
  | Inherited => None
  end.

(** The inner loop; a throw leaves the index as the loop has made it. *)
Fixpoint index_tokens (table : string) (rowid : N) (tokens : list string)
    (ix : gmap string (list Entry)) : option SearchError * gmap string (list Entry) :=
  match tokens with
  | [] => (None, ix)
  | token :: rest =>
      match index_token table rowid token ix with
      | Some ix' => index_tokens table rowid rest ix'
      | None => (Some (NotAFunction "this.index[token].find"), ix)
      end
  end.

(** The outer loop over [Object.entries(data)]. *)
Fixpoint index_entries (table : string) (rowid : N) (data : list (string * JsValue))
    (ix : gmap string (list Entry)) : option SearchError * gmap string (list Entry) :=
  match data with
  | [] => (None, ix)
  | (col, val) :: rest =>
      match index_tokens table rowid (tokenize val) ix with
      | (None, ix') => index_entries table rowid rest ix'
      | (Some e, ix') => (Some e, ix')
      end
  end.

(** [indexRow(table, id, data)]: the error thrown, if any, and the manager. *)
Definition indexRow (table : string) (rowid : N) (data : list (string * JsValue))
    (s : Search) : option SearchError * Search :=
  match index_entries table rowid data (index s) with
  | (None, ix) => (None, save (mkSearch (fts_files s) ix (indexPath s)))
  | (Some e, ix) => (Some e, mkSearch (fts_files s) ix (indexPath s))
  end.

(** [deindexRow(table, id)] *)
Definition deindexRow (table : string) (rowid : N) (s : Search) : Search :=
  let ix :=
    omap (fun l =>
            let l' := List.filter (fun e => negb (same_row table rowid e)) l in
            if decide (length l' = 0) then None else Some l')
      (index s) in
  save (mkSearch (fts_files s) ix (indexPath s)).

(** [new SearchManager(engine)], beside the files of the data directory. *)
Definition Search_new (files : gmap string FtsText) : Search := mkSearch files ∅ None.

(** [init()], with [path] the joined path of [_fts_index.json]. *)
Definition init (path : string) (s : Search) : Search :=
  match fts_files s !! path with
  | Some (JsonIndex ix) => mkSearch (fts_files s) ix (Some path)
  | Some BadIndex => mkSearch (fts_files s) ∅ (Some path)
  | None => mkSearch (fts_files s) (index s) (Some path)
  end.

(** The postings stored under a word, none when the index has no such key. *)
Definition postings (ix : gmap string (list Entry)) (w : string) : list Entry :=
  default [] (ix !! w).

(** No key of the index holds an empty array. *)
Definition no_empty (ix : gmap string (list Entry)) : Prop :=
  forall w, ix !! w <> Some [].

(** All the tokens of a row, in the order [indexRow] meets them. *)
Definition row_tokens (data : list (string * JsValue)) : list string :=
  concat (map (fun cv => tokenize (snd cv)) data).
End SearchManager.

(** * Properties *)

(** ** The ordered map *)

Section JsMapFacts.
Context {V : Type}.
Implicit Types (m : JsMap.t V) (k q : PageId) (v : V).

Lemma key_is_true k (e : PageId * V) : JsMap.key_is k e = true <-> fst e = k.
Proof. unfold JsMap.key_is. apply N.eqb_eq. Qed.

Lemma key_is_false k (e : PageId * V) : JsMap.key_is k e = false <-> fst e <> k.
Proof. unfold JsMap.key_is. apply N.eqb_neq. Qed.

Lemma has_get k m :
  JsMap.has k m = match JsMap.get k m with Some _ => true | None => false end.
Proof.
  induction m as [|e m IH]; [reflexivity|].
  cbn [JsMap.has JsMap.get existsb]. destruct (JsMap.key_is k e); [reflexivity|].
  exact IH.
Qed.

Lemma get_In k m v : JsMap.get k m = Some v -> In (k, v) m.
Proof.
  induction m as [|[k' v'] m IH]; cbn [JsMap.get]; [discriminate|].
  destruct (JsMap.key_is k (k', v')) eqn:E.
  - apply key_is_true in E. cbn in E. intros [= ->]. left. congruence.
  - intros H. right. auto.
Qed.

Lemma get_app k m1 m2 :
  JsMap.get k (m1 ++ m2) =
    match JsMap.get k m1 with Some v => Some v | None => JsMap.get k m2 end.
Proof.
  induction m1 as [|e m1 IH]; [reflexivity|].
  cbn [app JsMap.get]. destruct (JsMap.key_is k e); [reflexivity|exact IH].
Qed.

Lemma delete_cons k e m :
  JsMap.delete k (e :: m) =
    if JsMap.key_is k e then JsMap.delete k m else e :: JsMap.delete k m.
Proof. unfold JsMap.delete. cbn [List.filter]. by destruct (JsMap.key_is k e). Qed.

Lemma get_delete k q m :
  JsMap.get k (JsMap.delete q m) = if decide (k = q) then None else JsMap.get k m.
Proof.
  induction m as [|e m IH].
  - cbn. by case_decide.
  - rewrite delete_cons. cbn [JsMap.get].
    destruct (JsMap.key_is q e) eqn:Eq, (JsMap.key_is k e) eqn:Ek;
      cbn [JsMap.get]; rewrite ?Ek, ?IH;
      rewrite ?key_is_true, ?key_is_false in *; case_decide; congruence.
Qed.

Lemma key_is_replace_at k q v (e : PageId * V) :
  JsMap.key_is k (JsMap.replace_at q v e) = JsMap.key_is k e.
Proof.
  unfold JsMap.replace_at. destruct (JsMap.key_is q e) eqn:E; [|done].
  apply key_is_true in E. unfold JsMap.key_is. cbn [fst]. by rewrite E.
Qed.

Lemma get_replace k q v m :
  JsMap.get k (map (JsMap.replace_at q v) m) =
    if decide (k = q) then (fun _ => v) <$> JsMap.get q m else JsMap.get k m.
Proof.
  induction m as [|e m IH]; [cbn; by case_decide|].
  cbn [map JsMap.get]. rewrite key_is_replace_at, IH.
  destruct (JsMap.key_is k e) eqn:Ek; case_decide as Hk; subst; rewrite ?Ek; try done.
  - unfold JsMap.replace_at. by rewrite Ek.
  - unfold JsMap.replace_at.
    assert (JsMap.key_is q e = false) as ->; [|done].
    apply key_is_true in Ek. apply key_is_false. congruence.
Qed.

Lemma get_set k q v m :
  JsMap.get k (JsMap.set q v m) = if decide (k = q) then Some v else JsMap.get k m.
Proof.
  unfold JsMap.set. rewrite has_get.
  destruct (JsMap.get q m) as [w|] eqn:Hq.
  - rewrite get_replace, Hq. by case_decide.
  - rewrite get_app. cbn [JsMap.get]. unfold JsMap.key_is at 1. cbn [fst snd].
    case_decide as Hk.
    + subst. rewrite Hq. by rewrite N.eqb_refl.
    + destruct (JsMap.get k m); [done|]. apply N.eqb_neq in Hk.
      rewrite N.eqb_sym in Hk. by rewrite Hk.
Qed.

Lemma size_set k v m :
  JsMap.size (JsMap.set k v m) =
    match JsMap.get k m with Some _ => JsMap.size m | None => S (JsMap.size m) end.
Proof.
  unfold JsMap.set, JsMap.size. rewrite has_get.
  destruct (JsMap.get k m).
  - apply length_map.
  - rewrite length_app. cbn. lia.
Qed.

Lemma last_key_set_new k v m :
  JsMap.get k m = None -> JsMap.last_key (JsMap.set k v m) = Some k.
Proof.
  intros H. unfold JsMap.set, JsMap.last_key. rewrite has_get, H.
  rewrite map_app. cbn. apply last_snoc.
Qed.

Lemma keys_set_old k v m :
  JsMap.get k m <> None -> map fst (JsMap.set k v m) = map fst m.
Proof.
  intros H. unfold JsMap.set. rewrite has_get.
  destruct (JsMap.get k m); [clear H|done].
  induction m as [|e m IH]; [done|]. cbn [map]. rewrite IH. f_equal.
  unfold JsMap.replace_at.
  destruct (JsMap.key_is k e) eqn:E; [|done]. apply key_is_true in E. by cbn.
Qed.

Lemma size_delete_le k m : JsMap.size (JsMap.delete k m) <= JsMap.size m.
Proof. apply List.filter_length_le. Qed.

Lemma Forall_set (P : PageId * V -> Prop) k v m :
  P (k, v) -> Forall P m -> Forall P (JsMap.set k v m).
Proof.
  intros Hkv Hm. unfold JsMap.set. destruct (JsMap.has k m).
  - apply Forall_forall. intros x Hx. apply list_elem_of_In, in_map_iff in Hx.
    destruct Hx as (e & <- & He). unfold JsMap.replace_at.
    destruct (JsMap.key_is k e); [done|].
    rewrite Forall_forall in Hm. apply Hm. by apply list_elem_of_In.
  - apply Forall_app. split; [done|]. by constructor.
Qed.

Lemma Forall_delete (P : PageId * V -> Prop) k m :
  Forall P m -> Forall P (JsMap.delete k m).
Proof.
  intros Hm. apply Forall_forall. intros x Hx.
  apply list_elem_of_In, List.filter_In in Hx. destruct Hx as [Hx _].
  rewrite Forall_forall in Hm. apply Hm. by apply list_elem_of_In.
Qed.
End JsMapFacts.

Lemma size_delete_present {V} k (m : JsMap.t V) :
  JsMap.get k m <> None -> S (JsMap.size (JsMap.delete k m)) <= JsMap.size m.
Proof.
  induction m as [|e m IH]; [done|].
  rewrite delete_cons. cbn [JsMap.get]. unfold JsMap.size in *.
  destruct (JsMap.key_is k e); intros H; cbn [length].
  - pose proof (size_delete_le k m) as Hle. unfold JsMap.size in Hle. lia.
  - specialize (IH H). lia.
Qed.

Lemma first_key_present {V} k (m : JsMap.t V) :
  JsMap.first_key m = Some k -> JsMap.get k m <> None.
Proof.
  destruct m as [|e m]; [done|]. cbn. intros [= <-].
  unfold JsMap.key_is. by rewrite N.eqb_refl.
Qed.

Lemma last_key_delete_snoc {V} k q (v : V) (m : JsMap.t V) :
  k <> q -> JsMap.last_key (JsMap.delete k (m ++ [(q, v)])) = Some q.
Proof.
  intros Hne. unfold JsMap.delete, JsMap.last_key. rewrite List.filter_app.
  cbn [List.filter]. unfold JsMap.key_is at 2. cbn [fst].
  assert ((q =? k)%N = false) as -> by (apply N.eqb_neq; congruence).
  cbn [negb]. rewrite map_app. cbn. apply last_snoc.
Qed.

(** ** Bytes, buffers and files *)

Lemma PAGE_SIZE_eq : PAGE_SIZE = 4096.
Proof. reflexivity. Qed.

#[global] Opaque PAGE_SIZE.

Lemma length_zeros n : length (zeros n) = n.
Proof. apply length_replicate. Qed.

Lemma length_splice b offset data :
  offset + length data <= length b -> length (splice b offset data) = length b.
Proof.
  intros H. unfold splice. rewrite !length_app, length_take, length_drop. lia.
Qed.

Lemma take_drop_splice b offset data :
  offset <= length b ->
  take (length data) (drop offset (splice b offset data)) = data.
Proof.
  intros H. unfold splice.
  rewrite drop_app_length' by (rewrite length_take; lia).
  apply take_app_length.
Qed.

Lemma uint_roundtrip width v :
  (v < 2 ^ (8 * N.of_nat width))%N ->
  Z.to_N (le_combine (le_split width (Z.of_N v))) = v.
Proof.
  intros H. rewrite le_combine_split.
  rewrite Z.mod_small; [apply N2Z.id|].
  split; [lia|].
  replace (Z.of_nat width * 8)%Z with (Z.of_N (8 * N.of_nat width)) by lia.
  change 2%Z with (Z.of_N 2). rewrite <- N2Z.inj_pow. lia.
Qed.

Lemma u32_at_splice b offset v :
  (v < 2 ^ 32)%N -> offset <= length b ->
  u32_at (splice b offset (le_split 4 (Z.of_N v))) offset = v.
Proof.
  intros Hv Hb. unfold u32_at.
  change 4 with (length (le_split 4 (Z.of_N v))) at 1.
  rewrite take_drop_splice by done. by apply (uint_roundtrip 4).
Qed.

Lemma byte_at_app_l (c1 c2 : list byte) i :
  i < length c1 -> byte_at (c1 ++ c2) i = byte_at c1 i.
Proof. intros H. unfold byte_at. by rewrite lookup_app_l. Qed.

Lemma byte_at_app_r (c1 c2 : list byte) i :
  length c1 <= i -> byte_at (c1 ++ c2) i = byte_at c2 (i - length c1).
Proof. intros H. unfold byte_at. by rewrite lookup_app_r. Qed.

Lemma byte_at_ge (c : list byte) i : length c <= i -> byte_at c i = Byte.x00.
Proof. intros H. unfold byte_at. by rewrite lookup_ge_None_2. Qed.

Lemma byte_at_zeros n i : byte_at (zeros n) i = Byte.x00.
Proof.
  unfold byte_at, zeros. destruct (decide (i < n)).
  - by rewrite lookup_replicate_2.
  - rewrite lookup_ge_None_2; [done|]. rewrite length_replicate. lia.
Qed.

Lemma length_file_page c p : length (file_page c p) = PAGE_SIZE.
Proof.
  unfold file_page, file_pread. rewrite length_splice; [apply length_zeros|].
  rewrite length_take, length_zeros. lia.
Qed.

Lemma byte_at_file_page c p i :
  i < PAGE_SIZE -> byte_at (file_page c p) i = byte_at c (N.to_nat p * PAGE_SIZE + i).
Proof.
  intros Hi. unfold file_page, file_pread, splice. rewrite take_0. cbn [app Nat.add].
  set (off := N.to_nat p * PAGE_SIZE).
  set (d := take PAGE_SIZE (drop off c)).
  assert (length d = Nat.min PAGE_SIZE (length c - off)) as Hd
    by (unfold d; by rewrite length_take, length_drop).
  destruct (decide (i < length d)) as [Hlt|Hge].
  - rewrite byte_at_app_l by done. unfold byte_at, d.
    by rewrite lookup_take_lt, lookup_drop.
  - rewrite byte_at_app_r by lia. unfold byte_at at 1.
    rewrite lookup_drop. fold (byte_at (zeros PAGE_SIZE) (length d + (i - length d))).
    rewrite byte_at_zeros. symmetry. apply byte_at_ge. lia.
Qed.

Lemma file_page_ext c1 c2 p q :
  (forall i, i < PAGE_SIZE ->
     byte_at c1 (N.to_nat p * PAGE_SIZE + i) = byte_at c2 (N.to_nat q * PAGE_SIZE + i)) ->
  file_page c1 p = file_page c2 q.
Proof.
  intros H. apply (list_eq_same_length _ _ PAGE_SIZE); try apply length_file_page.
  intros i x y Hi Hx Hy.
  pose proof (byte_at_file_page c1 p i Hi) as H1.
  pose proof (byte_at_file_page c2 q i Hi) as H2.
  unfold byte_at at 1 in H1. unfold byte_at at 1 in H2.
  rewrite Hx in H1. rewrite Hy in H2. cbn in H1, H2. rewrite H1, H2. by apply H.
Qed.

Lemma byte_at_pwrite c pos data j :
  byte_at (file_pwrite c pos data) j =
    if decide (pos <= j < pos + length data) then byte_at data (j - pos) else byte_at c j.
Proof.
  unfold file_pwrite.
  assert (length (take pos (c ++ zeros (pos - length c))) = pos) as Hl.
  { rewrite length_take, length_app, length_zeros. lia. }
  case_decide as Hj.
  - rewrite byte_at_app_r by lia. rewrite Hl. by rewrite byte_at_app_l by lia.
  - destruct (decide (j < pos)) as [Hlt|Hge].
    + rewrite byte_at_app_l by lia. unfold byte_at at 1.
      rewrite lookup_take_lt by done.
      fold (byte_at (c ++ zeros (pos - length c)) j).
      destruct (decide (j < length c)).
      * by rewrite byte_at_app_l.
      * rewrite byte_at_app_r, byte_at_zeros by lia. symmetry. apply byte_at_ge. lia.
    + rewrite byte_at_app_r by lia. rewrite Hl.
      rewrite byte_at_app_r by lia. unfold byte_at. rewrite lookup_drop.
      f_equal. f_equal. lia.
Qed.

Lemma file_page_pwrite_same c p data :
  length data = PAGE_SIZE ->
  file_page (file_pwrite c (N.to_nat p * PAGE_SIZE) data) p = data.
Proof.
  intros Hd. apply (list_eq_same_length _ _ PAGE_SIZE); [done|apply length_file_page|].
  intros i x y Hi Hx Hy.
  pose proof (byte_at_file_page (file_pwrite c (N.to_nat p * PAGE_SIZE) data) p i Hi) as H1.
  rewrite byte_at_pwrite, decide_True in H1 by lia.
  unfold byte_at in H1. rewrite Hx in H1.
  replace (N.to_nat p * PAGE_SIZE + i - N.to_nat p * PAGE_SIZE) with i in H1 by lia.
  rewrite Hy in H1. exact H1.
Qed.

Lemma file_page_pwrite_other c p q data :
  length data = PAGE_SIZE -> q <> p ->
  file_page (file_pwrite c (N.to_nat p * PAGE_SIZE) data) q = file_page c q.
Proof.
  intros Hd Hne. apply file_page_ext. intros i Hi.
  rewrite byte_at_pwrite, decide_False; [done|].
  assert (N.to_nat q <> N.to_nat p) by lia. nia.
Qed.

(** ** One step of each pager method *)

Ltac run_M :=
  unfold mbind, M_bind, mret, M_ret, gets, modify, throw, try_catch; cbn.

Lemma opened_path s :
  opened s ->
  exists d path content,
    fd s = Some d /\ fd_path s d = Some path /\ files s !! path = Some content.
Proof.
  intros (d & content & Hd & Hc). unfold fd_content in Hc.
  destruct (fd_path s d) as [path|] eqn:Hp; [|done].
  exists d, path, content. by cbn in Hc.
Qed.

Lemma disk_opened s d path content :
  fd s = Some d -> fd_path s d = Some path -> files s !! path = Some content ->
  disk s = content.
Proof.
  intros Hd Hp Hc. unfold disk, fd_content. rewrite Hd. cbn. rewrite Hp. cbn.
  by rewrite Hc.
Qed.

Lemma bytes_of_snoc s x :
  bytes_of (set_heap (heap s ++ [x]) s) (length (heap s)) = x.
Proof.
  unfold bytes_of. cbn. by rewrite list_lookup_middle.
Qed.

Lemma insert_snoc {A} (h : list A) n x y :
  n = length h -> <[n := y]> (h ++ [x]) = h ++ [y].
Proof.
  intros ->. replace (length h) with (length h + 0) at 1 by lia. by rewrite insert_app_r.
Qed.

Lemma readPage_hit s p r :
  JsMap.get p (cache s) = Some r ->
  readPage p s = Return r (set_cache (JsMap.set p r (JsMap.delete p (cache s))) s).
Proof. intros H. unfold readPage. run_M. by rewrite H. Qed.

Lemma readPage_miss s p d content :
  JsMap.get p (cache s) = None ->
  fd s = Some d -> fd_content s d = Some content ->
  readPage p s =
    Return (length (heap s))
      (set_cache (evict_over (cacheLimit s) (JsMap.set p (length (heap s)) (cache s)))
         (set_heap (heap s ++ [file_page content p]) s)).
Proof.
  intros Hc Hd Hf. unfold readPage. run_M. rewrite Hc. cbn.
  unfold Buffer_alloc, fs_readSync. cbn. rewrite Hd.
  change (fd_content _ d) with (fd_content s d). rewrite Hf. cbn.
  rewrite bytes_of_snoc, insert_snoc by done. reflexivity.
Qed.

Lemma writePage_bad_length s p b :
  length (bytes_of s b) <> PAGE_SIZE ->
  writePage p b s = Throw (PlainError "Buffer must be 4KB") s.
Proof.
  intros H. unfold writePage, Buffer_length. run_M. by rewrite decide_True.
Qed.

Lemma writePage_ok s p b d path content :
  length (bytes_of s b) = PAGE_SIZE ->
  fd s = Some d -> fd_path s d = Some path -> files s !! path = Some content ->
  writePage p b s =
    Return tt
      (set_cache (JsMap.set p b (cache s))
         (set_files
            (<[path := file_pwrite content (N.to_nat p * PAGE_SIZE) (bytes_of s b)]> (files s))
            s)).
Proof.
  intros Hl Hd Hp Hc. unfold writePage, Buffer_length. run_M.
  rewrite decide_False by (intros ?; contradiction). cbn.
  unfold fs_writeSync. rewrite Hd, Hp, Hc. cbn.
  rewrite drop_0, take_ge by lia. reflexivity.
Qed.

Lemma writePage_throw_unchanged s p b e s' :
  writePage p b s = Throw e s' -> s' = s.
Proof.
  unfold writePage, Buffer_length. run_M. case_decide; cbn; [congruence|].
  unfold fs_writeSync. destruct (fd s) as [d|]; [|congruence].
  destruct (fd_path s d) as [path|]; [|congruence].
  destruct (files s !! path); [discriminate|congruence].
Qed.

(** ** Opening and closing *)

Lemma Pager_new_existing s path content :
  files s !! path = Some content ->
  Pager_new path s =
    Return tt (mkState (files s) (fdtab s ++ [Some path]) (heap s) path
                 (Some (length (fdtab s))) [] 1000).
Proof.
  intros H. unfold Pager_new, _open, fs_existsSync, fs_openSync. run_M.
  rewrite bool_decide_eq_true_2 by eauto. cbn. by rewrite H.
Qed.

(** C3, as the code has it: an existing file is opened for reading and
    writing whatever its first four bytes are.  The constructor returns, the
    pager holds a descriptor open on the file, the cache is empty and the
    file is left as it was; the magic is not looked at and no error is
    raised. *)
Theorem open_existing_ignores_magic s path content :
  files s !! path = Some content ->
  exists s',
    Pager_new path s = Return tt s'
    /\ (exists d, fd s' = Some d /\ fd_content s' d = Some content)
    /\ files s' = files s /\ cache s' = [] /\ cacheLimit s' = 1000.
Proof.
  intros H. rewrite (Pager_new_existing s path content H).
  eexists. split; [reflexivity|]. cbn.
  split; [|done]. exists (length (fdtab s)). split; [done|].
  unfold fd_content, fd_path. cbn. by rewrite list_lookup_middle.
Qed.

Lemma open_existing_ignores_magic_witness :
  exists s',
    Pager_new "kebun.sawit" boot_foreign = Return tt s'
    /\ (exists d, fd s' = Some d /\ fd_content s' d = Some (list_byte_of_string "XXXX"))
    /\ files s' = files boot_foreign /\ cache s' = [] /\ cacheLimit s' = 1000.
Proof.
  apply (open_existing_ignores_magic boot_foreign "kebun.sawit" (list_byte_of_string "XXXX")).
  vm_compute. reflexivity.
Defined.

(** C3, as stated, fails: the file holds "XXXX", not the magic, and the
    constructor returns a pager with an open descriptor instead of
    throwing. *)
Lemma open_bad_magic_returns :
  files boot_foreign !! "kebun.sawit" = Some (list_byte_of_string "XXXX")
  /\ take 4 (list_byte_of_string "XXXX") <> list_byte_of_string MAGIC
  /\ (exists s', Pager_new "kebun.sawit" boot_foreign = Return tt s' /\ fd s' = Some 0)
  /\ ~ (exists e s', Pager_new "kebun.sawit" boot_foreign = Throw e s').
Proof.
  split; [by vm_compute|]. split; [by vm_compute|].
  rewrite (Pager_new_existing boot_foreign "kebun.sawit" (list_byte_of_string "XXXX"))
    by (by vm_compute).
  split; [by eexists|]. intros (e & s' & [=]).
Qed.

Lemma close_closed s : fd s = None -> close s = Return tt s.
Proof. intros H. unfold close. run_M. by rewrite H. Qed.

Lemma close_closed_iter s n :
  fd s = None -> close (Nat.iter n (fun st => state_of (close st)) s) = Return tt s.
Proof.
  intros H. induction n as [|n IH].
  - by apply close_closed.
  - rewrite Nat.iter_succ, IH. cbn [state_of]. by apply close_closed.
Qed.

Lemma close_opened s d s1 :
  fd s = Some d -> close s = Return tt s1 -> fd s1 = None /\ cache s1 = [].
Proof.
  intros Hd. unfold close. run_M. rewrite Hd. cbn.
  unfold fs_closeSync. destruct (fd_path s d); [|discriminate].
  cbn. by intros [= <-].
Qed.

(** C9: once a call to [close] has closed the descriptor, every further
    call returns without raising and leaves the state as the first call
    left it: descriptor null, cache empty. *)
Theorem close_idempotent s d s1 :
  fd s = Some d -> close s = Return tt s1 ->
  fd s1 = None /\ cache s1 = []
  /\ forall n, close (Nat.iter n (fun st => state_of (close st)) s1) = Return tt s1.
Proof.
  intros Hd Hc. destruct (close_opened s d s1 Hd Hc) as [Hfd Hcache].
  split; [done|]. split; [done|]. intros n. by apply close_closed_iter.
Qed.

Lemma close_idempotent_witness :
  exists s1,
    close fresh_db = Return tt s1
    /\ fd s1 = None /\ cache s1 = []
    /\ forall n, close (Nat.iter n (fun st => state_of (close st)) s1) = Return tt s1.
Proof.
  eexists. split; [vm_compute; reflexivity|].
  eapply (close_idempotent fresh_db 0); vm_compute; reflexivity.
Defined.

(** ** writePage and readPage taken alone *)

Lemma writePage_not_opened s p b :
  length (bytes_of s b) = PAGE_SIZE -> ~ opened s ->
  exists e, writePage p b s = Throw e s.
Proof.
  intros Hl Hno. unfold writePage, Buffer_length. run_M.
  rewrite decide_False by (intros ?; contradiction). cbn.
  unfold fs_writeSync. destruct (fd s) as [d|] eqn:Hd; [|by eexists].
  destruct (fd_path s d) as [path|] eqn:Hp; [|by eexists].
  destruct (files s !! path) as [content|] eqn:Hc; [|by eexists].
  destruct Hno. exists d, content. split; [done|].
  unfold fd_content. rewrite Hp. exact Hc.
Qed.

(** C8, as the code has it: [writePage] raises exactly when the buffer is
    not 4096 bytes long or the pager holds no descriptor that is open on a
    file, as after [close]; and a call that raises leaves the whole state,
    so the file and the cache, as it was. *)
Theorem writePage_raises_iff s p b :
  ((exists e s', writePage p b s = Throw e s')
     <-> length (bytes_of s b) <> PAGE_SIZE \/ ~ opened s)
  /\ (forall e s', writePage p b s = Throw e s' -> s' = s).
Proof.
  split; [|apply writePage_throw_unchanged]. split.
  - intros (e & s' & Hw).
    destruct (decide (length (bytes_of s b) = PAGE_SIZE)) as [Hl|Hl]; [|by left].
    right. intros Ho.
    destruct (opened_path s Ho) as (d & path & content & Hd & Hp & Hc).
    rewrite (writePage_ok s p b d path content Hl Hd Hp Hc) in Hw. discriminate.
  - intros Hcase.
    destruct (decide (length (bytes_of s b) = PAGE_SIZE)) as [Hl|Hl].
    + destruct Hcase as [Hbad|Hno]; [done|].
      destruct (writePage_not_opened s p b Hl Hno) as (e & He). eauto.
    + rewrite writePage_bad_length by done. eauto.
Qed.

Lemma fresh_db_opened : opened fresh_db.
Proof. vm_compute. eexists _, _. split; reflexivity. Qed.

(** C8, as stated, fails on a closed pager: after [close] the caller makes
    a buffer of 4096 bytes, and [writePage] of it raises all the same,
    because [fs.writeSync] rejects the null descriptor. *)
Lemma writePage_after_close_throws :
  let s := state_of (Buffer_from (zeros PAGE_SIZE) (state_of (close fresh_db))) in
  length (bytes_of s 1) = PAGE_SIZE
  /\ writePage 1%N 1 s = Throw (TypeError "ERR_INVALID_ARG_TYPE") s.
Proof. cbv zeta. split; by vm_compute. Qed.

Lemma get_snoc_new {V} k (v : V) (m : JsMap.t V) :
  JsMap.get k m = None -> JsMap.get k (m ++ [(k, v)]) = Some v.
Proof.
  intros Hg. rewrite get_app, Hg. cbn. unfold JsMap.key_is. cbn.
  by rewrite N.eqb_refl.
Qed.

Lemma evict_keeps_new limit k (v : BufRef) (m : JsMap.t BufRef) :
  1 <= limit -> JsMap.get k m = None ->
  JsMap.get k (evict_over limit (m ++ [(k, v)])) = Some v
  /\ JsMap.last_key (evict_over limit (m ++ [(k, v)])) = Some k.
Proof.
  intros Hlim Hg. unfold evict_over. case_decide as Hlt.
  - destruct m as [|[q w] m]; [cbn in Hlt; lia|].
    cbn [app JsMap.first_key map fst head].
    assert (k <> q) as Hne.
    { intros ->. cbn in Hg. unfold JsMap.key_is in Hg. cbn in Hg.
      by rewrite N.eqb_refl in Hg. }
    split.
    + rewrite get_delete, decide_False by done.
      by apply (get_snoc_new k v ((q, w) :: m)).
    + apply (last_key_delete_snoc q k v ((q, w) :: m)). congruence.
  - split; [by apply get_snoc_new|].
    unfold JsMap.last_key. rewrite map_app. cbn. apply last_snoc.
Qed.

(** C6, as the code has it: a read of a page that is not cached does not
    fail on an open pager, however large the page-id is against the
    header's count.  It returns a 4096-byte buffer with the bytes the file
    has from offset [p * 4096] on, zero-filled from the end of the file,
    hence all zeros when the file ends at or before that offset.  The
    buffer is entered in the cache under [p] as the newest entry, and the
    oldest entry is deleted when the cache then exceeds its limit: with a
    limit of at least 1 the buffer returned is cached under [p] as the most
    recent entry afterwards; with a limit of 0 and an empty cache the new
    entry itself is deleted at once. *)
Theorem readPage_uncached_returns s p :
  opened s -> JsMap.get p (cache s) = None ->
  exists r s',
    readPage p s = Return r s'
    /\ bytes_of s' r = disk_page s p
    /\ length (bytes_of s' r) = PAGE_SIZE
    /\ (length (disk s) <= N.to_nat p * PAGE_SIZE -> bytes_of s' r = zeros PAGE_SIZE)
    /\ cache s' = evict_over (cacheLimit s) (cache s ++ [(p, r)])
    /\ (1 <= cacheLimit s ->
          JsMap.get p (cache s') = Some r /\ JsMap.last_key (cache s') = Some p)
    /\ (cacheLimit s = 0 -> cache s = [] -> cache s' = []).
Proof.
  intros Ho Hc. pose proof Ho as (d & content & Hd & Hf).
  pose proof (readPage_miss s p d content Hc Hd Hf) as Hread.
  eexists _, _. split; [exact Hread|].
  assert (disk s = content) as Hdisk by (unfold disk; rewrite Hd; cbn; by rewrite Hf).
  assert (bytes_of
            (set_cache (evict_over (cacheLimit s) (JsMap.set p (length (heap s)) (cache s)))
               (set_heap (heap s ++ [file_page content p]) s)) (length (heap s))
          = file_page content p) as ->.
  { unfold bytes_of. cbn. by rewrite list_lookup_middle. }
  assert (JsMap.set p (length (heap s)) (cache s) = cache s ++ [(p, length (heap s))]) as Hset.
  { unfold JsMap.set. by rewrite has_get, Hc. }
  unfold disk_page. rewrite Hdisk. split; [done|]. split; [apply length_file_page|].
  split; [|split; [|split]].
  - intros Hlen. unfold file_page, file_pread. rewrite drop_ge by done.
    rewrite take_nil. unfold splice. rewrite take_0. cbn. by rewrite drop_0.
  - unfold set_cache at 1. cbn [cache]. by rewrite Hset.
  - intros Hlim. unfold set_cache at 1 2. cbn [cache cacheLimit]. rewrite Hset.
    by apply evict_keeps_new.
  - intros Hzero Hnil. unfold set_cache at 1. cbn [cache]. rewrite Hset, Hzero, Hnil.
    unfold evict_over. cbn. rewrite decide_True by lia. cbn.
    unfold JsMap.delete, JsMap.key_is. cbn. by rewrite N.eqb_refl.
Qed.

Lemma readPage_uncached_returns_witness :
  exists r s',
    readPage 5%N fresh_db = Return r s'
    /\ bytes_of s' r = disk_page fresh_db 5%N
    /\ length (bytes_of s' r) = PAGE_SIZE
    /\ (length (disk fresh_db) <= N.to_nat 5%N * PAGE_SIZE -> bytes_of s' r = zeros PAGE_SIZE)
    /\ cache s' = evict_over (cacheLimit fresh_db) (cache fresh_db ++ [(5%N, r)])
    /\ (1 <= cacheLimit fresh_db ->
          JsMap.get 5%N (cache s') = Some r /\ JsMap.last_key (cache s') = Some 5%N)
    /\ (cacheLimit fresh_db = 0 -> cache fresh_db = [] -> cache s' = []).
Proof.
  apply (readPage_uncached_returns fresh_db 5%N).
  - vm_compute. eexists _, _. split; reflexivity.
  - vm_compute. reflexivity.
Defined.

(** C6, as stated, fails: the fresh file has one page, page 5 is not
    cached and 5 >= 1, and [readPage 5] returns a zero-filled buffer
    instead of raising. *)
Lemma readPage_past_total_returns :
  disk_total fresh_db = 1%N
  /\ JsMap.get 5%N (cache fresh_db) = None
  /\ (exists r s', readPage 5%N fresh_db = Return r s' /\ bytes_of s' r = zeros PAGE_SIZE)
  /\ ~ (exists e s', readPage 5%N fresh_db = Throw e s').
Proof.
  split; [by vm_compute|]. split; [by vm_compute|].
  assert (exists r s', readPage 5%N fresh_db = Return r s'
                       /\ bytes_of s' r = zeros PAGE_SIZE) as (r & s' & Hr & Hz).
  { eexists _, _. split; [vm_compute; reflexivity|by vm_compute]. }
  split; [exists r, s'; split; [exact Hr|exact Hz]|].
  rewrite Hr. intros (e & s'' & [=]).
Qed.

(** C4 at the failing input: a caller writes page 1, page 2, then page 1
    again.  The last write finds page 1 in the cache and leaves it where it
    stands, so the most-recent end of the cache still holds page 2. *)
Theorem writePage_cached_not_promoted :
  let calls := [CallBuffer (zeros PAGE_SIZE);
                CallWrite 1%N 1; CallWrite 2%N 1; CallWrite 1%N 1] in
  let s := run_calls calls fresh_db in
  map fst (cache s) = [1%N; 2%N] /\ JsMap.last_key (cache s) = Some 2%N.
Proof. vm_compute. split; reflexivity. Qed.

(** The same in general: a successful write to a page that is cached
    leaves the order of the cache untouched. *)
Lemma writePage_cached_keeps_order s p b s' :
  writePage p b s = Return tt s' -> JsMap.get p (cache s) <> None ->
  map fst (cache s') = map fst (cache s).
Proof.
  unfold writePage, Buffer_length. run_M. case_decide; cbn; [discriminate|].
  destruct (fs_writeSync _ _ _ _ _ _) as [n s1|] eqn:Hw; [|discriminate].
  intros [= <-] Hc. cbn.
  assert (cache s1 = cache s) as ->.
  { revert Hw. unfold fs_writeSync. destruct (fd s) as [d|]; [|discriminate].
    destruct (fd_path s d) as [path|]; [|discriminate].
    destruct (files s !! path); [|discriminate]. by intros [= _ <-]. }
  by apply keys_set_old.
Qed.

(** The accesses that do end at the most-recent end: a hit of [readPage]
    and a write of a page that is not cached. *)
Lemma readPage_hit_promotes s p r :
  JsMap.get p (cache s) = Some r ->
  exists s', readPage p s = Return r s' /\ JsMap.last_key (cache s') = Some p.
Proof.
  intros H. rewrite (readPage_hit s p r H). eexists. split; [reflexivity|]. cbn.
  apply last_key_set_new. rewrite get_delete. by rewrite decide_True.
Qed.

(** A miss of [readPage] puts the page at the most-recent end (the limit is
    at least 1, so the page just inserted is not the one evicted). *)
Lemma readPage_miss_appends s p r s' :
  opened s -> 1 <= cacheLimit s -> JsMap.get p (cache s) = None ->
  readPage p s = Return r s' -> JsMap.last_key (cache s') = Some p.
Proof.
  intros (d & content & Hd & Hf) Hlim Hg.
  rewrite (readPage_miss s p d content Hg Hd Hf). intros [= _ <-].
  unfold set_cache at 1. cbn [cache].
  unfold evict_over. rewrite size_set, Hg.
  case_decide as Hlt; [|by apply last_key_set_new].
  unfold JsMap.set. rewrite has_get, Hg.
  destruct (cache s) as [|[k v] c] eqn:Hc; [cbn in Hlt; lia|].
  cbn [app JsMap.first_key map fst head].
  change ((k, v) :: c ++ [(p, length (heap s))]) with (((k, v) :: c) ++ [(p, length (heap s))]).
  apply last_key_delete_snoc. intros ->.
  cbn in Hg. unfold JsMap.key_is in Hg. cbn in Hg. by rewrite N.eqb_refl in Hg.
Qed.

Lemma writePage_uncached_appends s p b s' :
  writePage p b s = Return tt s' -> JsMap.get p (cache s) = None ->
  JsMap.last_key (cache s') = Some p.
Proof.
  unfold writePage, Buffer_length. run_M. case_decide; cbn; [discriminate|].
  destruct (fs_writeSync _ _ _ _ _ _) as [n s1|] eqn:Hw; [|discriminate].
  intros [= <-] Hc. cbn.
  assert (cache s1 = cache s) as ->.
  { revert Hw. unfold fs_writeSync. destruct (fd s) as [d|]; [|discriminate].
    destruct (fd_path s d) as [path|]; [|discriminate].
    destruct (files s !! path); [|discriminate]. by intros [= _ <-]. }
  by apply last_key_set_new.
Qed.

(** ** SecurityManager.check *)

Section Check.
Import SecurityManager.

Lemma matches_spec u tbl act p :
  matches u tbl act p = true <->
  Some (user p) = u /\ (table p = tbl \/ table p = "*")
  /\ (action p = act \/ action p = "all").
Proof.
  unfold matches. rewrite !andb_true_iff, !orb_true_iff, !String.eqb_eq.
  rewrite bool_decide_eq_true. tauto.
Qed.

(** C10: [check] returns true for an absent or empty user and for
    "admin", whatever the permission list holds; for any other user it
    returns true exactly when a stored permission names that user, the
    table or "*", and the action or "all", and otherwise it throws the
    access-denied error. *)
Theorem check_spec perms u tbl act :
  (falsy u = true -> forall perms', check perms' u tbl act = inr true)
  /\ (u = Some "admin" -> forall perms', check perms' u tbl act = inr true)
  /\ (falsy u = false -> u <> Some "admin" ->
      (check perms u tbl act = inr true <->
         exists p, In p perms /\ Some (user p) = u
                   /\ (table p = tbl \/ table p = "*")
                   /\ (action p = act \/ action p = "all"))
      /\ (check perms u tbl act <> inr true ->
          check perms u tbl act = inl (denied u tbl act))).
Proof.
  split; [|split].
  - intros Hf perms'. unfold check. by rewrite Hf.
  - intros -> perms'. reflexivity.
  - intros Hf Hadm. unfold check. rewrite Hf.
    rewrite bool_decide_eq_false_2 by done.
    destruct (existsb (matches u tbl act) perms) eqn:E; cbn [negb].
    + split; [|done]. split; [intros _|done].
      apply existsb_exists in E. destruct E as (p & Hin & Hm).
      exists p. split; [done|]. by apply matches_spec.
    + split; [|done]. split; [discriminate|].
      intros (p & Hin & Hm). apply matches_spec in Hm.
      assert (existsb (matches u tbl act) perms = true) as E'
        by (apply existsb_exists; eauto).
      congruence.
Qed.
End Check.

(** ** What a call keeps: open descriptor, 4 KiB cache entries, page views *)

Lemma bind_Return {A B} (m : M A) (f : A -> M B) s a s' :
  m s = Return a s' -> (m ≫= f) s = f a s'.
Proof. intros H. unfold mbind, M_bind. by rewrite H. Qed.

Lemma bind_Throw {A B} (m : M A) (f : A -> M B) s e s' :
  m s = Throw e s' -> (m ≫= f) s = Throw e s'.
Proof. intros H. unfold mbind, M_bind. by rewrite H. Qed.

Lemma cache_ok_In s q r :
  cache_ok s -> In (q, r) (cache s) -> length (bytes_of s r) = PAGE_SIZE.
Proof.
  intros Hok Hin. unfold cache_ok in Hok. rewrite Forall_forall in Hok.
  apply (Hok (q, r)). by apply list_elem_of_In.
Qed.

Lemma page_sized_valid s r : length (bytes_of s r) = PAGE_SIZE -> r < length (heap s).
Proof.
  unfold bytes_of. intros H. apply lookup_lt_is_Some.
  destruct (heap s !! r) as [x|] eqn:E; [by exists x|]. cbn in H. pose proof PAGE_SIZE_eq. lia.
Qed.

Lemma cache_ok_get s q r :
  cache_ok s -> JsMap.get q (cache s) = Some r ->
  length (bytes_of s r) = PAGE_SIZE /\ r < length (heap s).
Proof.
  intros Hok Hg. apply get_In in Hg.
  pose proof (cache_ok_In s q r Hok Hg). split; [done|]. by apply page_sized_valid.
Qed.

Lemma length_page_view s p : wf s -> length (page_view s p) = PAGE_SIZE.
Proof.
  intros [_ Hok]. unfold page_view.
  destruct (JsMap.get p (cache s)) as [r|] eqn:E.
  - by apply (cache_ok_get s p r).
  - apply length_file_page.
Qed.

(** Appending to the heap leaves the cached buffers as they are. *)
Lemma cache_ok_heap_app s c x :
  cache_ok s ->
  Forall (fun e => length (bytes_of (set_cache c (set_heap (heap s ++ x) s)) (snd e)) = PAGE_SIZE)
    (cache s).
Proof.
  intros Hok. apply Forall_forall. intros [q r] Hin. apply list_elem_of_In in Hin.
  pose proof (cache_ok_In s q r Hok Hin) as Hl.
  pose proof (page_sized_valid s r Hl) as Hv.
  unfold bytes_of in *. cbn. by rewrite lookup_app_l.
Qed.

Lemma evict_over_get limit (c : JsMap.t BufRef) q r :
  JsMap.get q (evict_over limit c) = Some r -> JsMap.get q c = Some r.
Proof.
  unfold evict_over. case_decide; [|done].
  destruct (JsMap.first_key c) as [k|]; [|done].
  rewrite get_delete. by case_decide.
Qed.

Lemma Forall_evict_over (P : PageId * BufRef -> Prop) limit c :
  Forall P c -> Forall P (evict_over limit c).
Proof.
  intros H. unfold evict_over. case_decide; [|done].
  destruct (JsMap.first_key c); [by apply Forall_delete|done].
Qed.

Lemma size_evict_over limit (c : JsMap.t BufRef) :
  JsMap.size c <= S limit -> JsMap.size (evict_over limit c) <= limit.
Proof.
  intros H. unfold evict_over. case_decide as Hlt; [|lia].
  destruct (JsMap.first_key c) as [k|] eqn:Hk.
  - pose proof (size_delete_present k c (first_key_present k c Hk)). lia.
  - destruct c; [cbn in *; lia|discriminate].
Qed.

Lemma readPage_spec s p :
  wf s ->
  exists r s',
    readPage p s = Return r s'
    /\ bytes_of s' r = page_view s p
    /\ wf s' /\ disk s' = disk s
    /\ (forall q, page_view s' q = page_view s q \/ page_view s' q = disk_page s q).
Proof.
  intros [Ho Hok]. destruct (JsMap.get p (cache s)) as [r|] eqn:Hg.
  - rewrite (readPage_hit s p r Hg). eexists _, _. split; [reflexivity|].
    split; [|split; [|split]].
    + unfold page_view. by rewrite Hg.
    + split; [exact Ho|]. unfold cache_ok. cbn.
      apply Forall_set; [|by apply Forall_delete].
      cbn. by apply (cache_ok_get s p r).
    + reflexivity.
    + intros q. left. unfold page_view. cbn. rewrite get_set, get_delete.
      case_decide; [by subst; rewrite Hg|done].
  - destruct Ho as (d & content & Hd & Hf).
    assert (disk s = content) as Hdisk by (unfold disk; rewrite Hd; cbn; by rewrite Hf).
    rewrite (readPage_miss s p d content Hg Hd Hf).
    set (s' := set_cache _ _).
    assert (bytes_of s' (length (heap s)) = file_page content p) as Hnew.
    { unfold bytes_of, s'. cbn. by rewrite list_lookup_middle. }
    exists (length (heap s)), s'. split; [reflexivity|].
    split; [|split; [|split]].
    + rewrite Hnew. unfold page_view, disk_page. by rewrite Hg, Hdisk.
    + split; [by exists d, content|]. unfold cache_ok. unfold s' at 2. cbn.
      apply Forall_evict_over, Forall_set.
      * cbn. rewrite Hnew. apply length_file_page.
      * by apply cache_ok_heap_app.
    + reflexivity.
    + intros q.
      destruct (JsMap.get q (cache s')) as [r'|] eqn:Hq;
        [|right; unfold page_view; by rewrite Hq].
      assert (page_view s' q = bytes_of s' r') as -> by (unfold page_view; by rewrite Hq).
      unfold s' in Hq. cbn in Hq. apply evict_over_get in Hq.
      rewrite get_set in Hq. case_decide as Hqp.
      * injection Hq as <-. subst q. right. rewrite Hnew.
        unfold disk_page. by rewrite Hdisk.
      * left. unfold page_view. rewrite Hq.
        destruct (cache_ok_get s q r' Hok Hq) as [_ Hv].
        unfold bytes_of, s'. cbn. by rewrite lookup_app_l.
Qed.

Lemma writePage_spec s p b :
  wf s -> length (bytes_of s b) = PAGE_SIZE ->
  exists s',
    writePage p b s = Return tt s'
    /\ wf s' /\ heap s' = heap s /\ cache s' = JsMap.set p b (cache s)
    /\ fd s' = fd s /\ fdtab s' = fdtab s /\ cacheLimit s' = cacheLimit s
    /\ disk_page s' p = bytes_of s b /\ page_view s' p = bytes_of s b
    /\ (forall q, q <> p ->
          disk_page s' q = disk_page s q /\ page_view s' q = page_view s q).
Proof.
  intros [Ho Hok] Hl.
  destruct (opened_path s Ho) as (d & path & content & Hd & Hp & Hc).
  rewrite (writePage_ok s p b d path content Hl Hd Hp Hc).
  set (s' := set_cache _ _). exists s'. split; [reflexivity|].
  assert (disk s = content) as Hdisk by (by apply (disk_opened s d path)).
  assert (disk s' = file_pwrite content (N.to_nat p * PAGE_SIZE) (bytes_of s b)) as Hdisk'.
  { apply (disk_opened s' d path); [done|done|]. unfold s'. cbn. apply lookup_insert_eq. }
  split; [|repeat (split; [reflexivity|]); split; [|split]].
  - split.
    + exists d. eexists. split; [done|]. unfold fd_content.
      change (fd_path s' d) with (fd_path s d). rewrite Hp. cbn.
      unfold s'. cbn. apply lookup_insert_eq.
    + unfold cache_ok, s'. cbn. by apply Forall_set.
  - unfold disk_page. rewrite Hdisk'. by apply file_page_pwrite_same.
  - unfold page_view, s'. cbn. rewrite get_set. by rewrite decide_True.
  - intros q Hq. split.
    + unfold disk_page. rewrite Hdisk', Hdisk. by apply file_page_pwrite_other.
    + unfold page_view. unfold s' at 1. cbn. rewrite get_set, decide_False by done.
      destruct (JsMap.get q (cache s)); [reflexivity|].
      unfold disk_page. rewrite Hdisk', Hdisk. by apply file_page_pwrite_other.
Qed.

Lemma Buffer_from_spec s bytes :
  let s' := state_of (Buffer_from bytes s) in
  wf s ->
  wf s' /\ disk s' = disk s /\ (forall q, page_view s' q = page_view s q)
  /\ (forall r, r < length (heap s) -> bytes_of s' r = bytes_of s r).
Proof.
  intros s' [Ho Hok]. unfold s', Buffer_from. cbn [state_of].
  split; [|split; [|split]].
  - split; [exact Ho|]. apply (cache_ok_heap_app s (cache s) [bytes] Hok).
  - reflexivity.
  - intros q. unfold page_view. cbn.
    destruct (JsMap.get q (cache s)) as [r|] eqn:Hq; [|reflexivity].
    destruct (cache_ok_get s q r Hok Hq) as [_ Hv].
    unfold bytes_of. cbn. by rewrite lookup_app_l.
  - intros r Hr. unfold bytes_of. cbn. by rewrite lookup_app_l.
Qed.

Lemma fresh_db_wf : wf fresh_db.
Proof. split; [apply fresh_db_opened|]. vm_compute. constructor. Qed.

(** ** The cache limit *)

Lemma writePage_uncached_grows s p b s' :
  wf s -> writePage p b s = Return tt s' -> JsMap.get p (cache s) = None ->
  JsMap.size (cache s') = S (JsMap.size (cache s)).
Proof.
  intros Hwf Hw Hg.
  destruct (decide (length (bytes_of s b) = PAGE_SIZE)) as [Hl|Hl].
  - destruct (writePage_spec s p b Hwf Hl) as (s1 & Hw1 & _ & _ & Hcache & _).
    rewrite Hw in Hw1. injection Hw1 as ->. by rewrite Hcache, size_set, Hg.
  - rewrite writePage_bad_length in Hw by done. discriminate.
Qed.

Lemma write_pages_fills b n s :
  wf s -> length (bytes_of s b) = PAGE_SIZE -> cache s = [] ->
  let s' := write_pages b n s in
  wf s' /\ heap s' = heap s /\ cacheLimit s' = cacheLimit s
  /\ JsMap.size (cache s') = n
  /\ (forall q, JsMap.get q (cache s') <> None -> (q <= N.of_nat n)%N).
Proof.
  intros Hwf Hl Hc. induction n as [|n IH]; cbn zeta.
  - cbn [write_pages]. rewrite Hc. done.
  - cbn zeta in IH. destruct IH as (Hwf' & Hheap & Hlim & Hsize & Hkeys).
    cbn [write_pages]. set (sn := write_pages b n s) in *.
    assert (length (bytes_of sn b) = PAGE_SIZE) as Hl'.
    { unfold bytes_of. by rewrite Hheap. }
    destruct (writePage_spec sn (N.of_nat (S n)) b Hwf' Hl')
      as (s1 & -> & Hwf1 & Hheap1 & Hcache1 & _ & _ & Hlim1 & _).
    cbn [state_of]. split; [done|]. split; [congruence|]. split; [congruence|].
    assert (JsMap.get (N.of_nat (S n)) (cache sn) = None) as Hnew.
    { destruct (JsMap.get (N.of_nat (S n)) (cache sn)) eqn:E; [|done].
      assert (N.of_nat (S n) <= N.of_nat n)%N by (apply Hkeys; congruence). lia. }
    split.
    + by rewrite Hcache1, size_set, Hnew, Hsize.
    + intros q. rewrite Hcache1, get_set. case_decide as Hq; [lia|].
      intros Hg. specialize (Hkeys q Hg). lia.
Qed.

(** [readPage] is the path that keeps the limit: a cache within the limit
    stays within it. *)
Lemma readPage_keeps_limit s p :
  wf s -> JsMap.size (cache s) <= cacheLimit s ->
  let s' := state_of (readPage p s) in
  JsMap.size (cache s') <= cacheLimit s' /\ cacheLimit s' = cacheLimit s.
Proof.
  intros [Ho Hok] Hsize. cbv zeta.
  destruct (JsMap.get p (cache s)) as [r|] eqn:Hg.
  - rewrite (readPage_hit s p r Hg). cbn [state_of]. unfold set_cache.
    cbn [cache cacheLimit]. split; [|done].
    rewrite size_set, get_delete, decide_True by done.
    pose proof (size_delete_present p (cache s)) as Hd.
    rewrite Hg in Hd. specialize (Hd ltac:(done)). lia.
  - destruct Ho as (d & content & Hd & Hf).
    rewrite (readPage_miss s p d content Hg Hd Hf). cbn [state_of].
    unfold set_cache, set_heap. cbn [cache cacheLimit]. split; [|done].
    apply size_evict_over. rewrite size_set, Hg. lia.
Qed.

Lemma caller_buffer_ready :
  let s := run_calls [CallBuffer (zeros PAGE_SIZE)] fresh_db in
  wf s /\ length (bytes_of s 1) = PAGE_SIZE /\ cache s = [] /\ cacheLimit s = 1000.
Proof.
  cbv zeta. split.
  - apply (Buffer_from_spec fresh_db (zeros PAGE_SIZE)), fresh_db_wf.
  - by vm_compute.
Qed.

(** C5 at the failing input: a new pager (limit 1000), one 4 KiB buffer,
    and 1001 calls of [writePage] for the pages 1 .. 1001.  No call evicts
    anything and the cache ends with 1001 entries. *)
Theorem writePage_overfills_cache :
  let s := run_calls [CallBuffer (zeros PAGE_SIZE)] fresh_db in
  let s' := write_pages 1 1001 s in
  cacheLimit s' = 1000 /\ JsMap.size (cache s') = 1001
  /\ cacheLimit s' < JsMap.size (cache s').
Proof.
  cbv zeta. destruct caller_buffer_ready as (Hwf & Hl & Hc & Hlim0).
  destruct (write_pages_fills 1 1001 _ Hwf Hl Hc) as (_ & _ & Hlim & Hsize & _).
  rewrite Hlim, Hsize, Hlim0. clear. split; [reflexivity|]. split; [reflexivity|].
  apply Nat.ltb_lt. reflexivity.
Qed.

(** ** allocPage *)

Lemma Buffer_readUInt32LE_ok s b offset :
  offset + 4 <= length (bytes_of s b) ->
  Buffer_readUInt32LE b offset s = Return (u32_at (bytes_of s b) offset) s.
Proof.
  intros H. unfold Buffer_readUInt32LE, Buffer_readUIntLE, u32_at.
  by rewrite decide_True.
Qed.

Lemma Buffer_writeUInt32LE_ok s b v offset :
  (v < 2 ^ 32)%N -> offset + 4 <= length (bytes_of s b) ->
  Buffer_writeUInt32LE b v offset s =
    Return (offset + 4)
      (set_heap (<[b := splice (bytes_of s b) offset (le_split 4 (Z.of_N v))]> (heap s)) s).
Proof.
  intros Hv H. unfold Buffer_writeUInt32LE, Buffer_writeUIntLE.
  change (8 * N.of_nat 4)%N with 32%N. by rewrite !decide_True.
Qed.

Lemma Buffer_writeUInt32LE_range s b v offset :
  (2 ^ 32 <= v)%N ->
  Buffer_writeUInt32LE b v offset s = Throw (RangeError "ERR_OUT_OF_RANGE") s.
Proof.
  intros Hv. unfold Buffer_writeUInt32LE, Buffer_writeUIntLE.
  change (8 * N.of_nat 4)%N with 32%N. rewrite decide_False; [done|lia].
Qed.

Lemma Buffer_writeUInt16LE_ok s b v offset :
  (v < 2 ^ 16)%N -> offset + 2 <= length (bytes_of s b) ->
  Buffer_writeUInt16LE b v offset s =
    Return (offset + 2)
      (set_heap (<[b := splice (bytes_of s b) offset (le_split 2 (Z.of_N v))]> (heap s)) s).
Proof.
  intros Hv H. unfold Buffer_writeUInt16LE, Buffer_writeUIntLE.
  change (8 * N.of_nat 2)%N with 16%N. by rewrite !decide_True.
Qed.

Lemma empty_data_page_fields :
  length empty_data_page = PAGE_SIZE
  /\ u32_at empty_data_page 0 = 0%N
  /\ u16_at empty_data_page 4 = 0%N
  /\ u16_at empty_data_page 6 = 8%N.
Proof. by vm_compute. Qed.

Ltac flat :=
  unfold set_heap, set_files, set_cache, set_fd, set_fdtab;
  cbn [files fdtab heap filePath fd cache cacheLimit].

Ltac bind_with tac := erewrite bind_Return; [|tac]; flat.

Lemma bytes_of_inserted f t h fp d c l r x :
  r < length h -> bytes_of (mkState f t (<[r := x]> h) fp d c l) r = x.
Proof. intros H. unfold bytes_of. cbn. by rewrite list_lookup_insert_eq. Qed.

Lemma bytes_of_last f t h fp d c l n x :
  n = length h -> bytes_of (mkState f t (h ++ [x]) fp d c l) n = x.
Proof. intros H. unfold bytes_of. cbn. by rewrite list_lookup_middle. Qed.

(** The state [allocPage] leaves when it returns, from the state [s0]
    after its [readPage(0)], the header buffer [r0] and the new total. *)
Lemma allocPage_after_read s r0 s0 d path content :
  readPage 0%N s = Return r0 s0 ->
  fd s0 = Some d -> fd_path s0 d = Some path -> files s0 !! path = Some content ->
  length (bytes_of s0 r0) = PAGE_SIZE ->
  let T := u32_at (bytes_of s0 r0) 4 in
  let header := splice (bytes_of s0 r0) 4 (le_split 4 (Z.of_N (T + 1))) in
  (T + 1 < 2 ^ 32)%N ->
  allocPage s =
    Return T
      (mkState
         (<[path := file_pwrite (file_pwrite content 0 header)
                      (N.to_nat T * PAGE_SIZE) empty_data_page]> (files s0))
         (fdtab s0) (<[r0 := header]> (heap s0) ++ [empty_data_page])
         (filePath s0) (fd s0)
         (JsMap.set T (length (heap s0)) (JsMap.set 0%N r0 (cache s0)))
         (cacheLimit s0)).
Proof.
  intros Hread Hd Hp Hc Hl T header HT.
  pose proof PAGE_SIZE_eq as HPS.
  pose proof (page_sized_valid s0 r0 Hl) as Hv.
  assert (length header = PAGE_SIZE) as Hlh.
  { unfold header. rewrite length_splice; [done|]. rewrite length_le_split. lia. }
  destruct empty_data_page_fields as (Hle & _).
  unfold allocPage.
  bind_with ltac:(exact Hread).
  bind_with ltac:(apply Buffer_readUInt32LE_ok; lia).
  fold T. cbv zeta.
  bind_with ltac:(apply Buffer_writeUInt32LE_ok; [exact HT|lia]).
  fold header.
  unfold fd_path in Hp.
  destruct s0 as [f0 t0 h0 fp0 d0 c0 l0]. flat. cbn [files fdtab heap fd] in Hd, Hp, Hc, Hv.
  subst d0.
  bind_with ltac:(eapply (writePage_ok _ 0%N r0 d path content);
    [rewrite bytes_of_inserted by done; exact Hlh|reflexivity|exact Hp|exact Hc]).
  rewrite bytes_of_inserted by done.
  change (N.to_nat 0 * PAGE_SIZE) with 0.
  unfold Buffer_alloc at 1. unfold mbind at 1, M_bind at 1. flat.
  rewrite length_insert.
  assert (length h0 = length (<[r0 := header]> h0)) as Hn by (by rewrite length_insert).
  bind_with ltac:(apply Buffer_writeUInt32LE_ok;
    [done|rewrite bytes_of_last by done; rewrite length_zeros; lia]).
  rewrite bytes_of_last, insert_snoc by done.
  set (pg1 := splice (zeros PAGE_SIZE) 0 (le_split 4 (Z.of_N 0))).
  assert (length pg1 = PAGE_SIZE) as Hl1.
  { unfold pg1. rewrite length_splice; rewrite length_zeros; [done|]. rewrite length_le_split. lia. }
  bind_with ltac:(apply Buffer_writeUInt16LE_ok;
    [done|rewrite bytes_of_last by done; lia]).
  rewrite bytes_of_last, insert_snoc by done.
  set (pg2 := splice pg1 4 (le_split 2 (Z.of_N 0))).
  assert (length pg2 = PAGE_SIZE) as Hl2.
  { unfold pg2. rewrite length_splice; [done|]. rewrite length_le_split. lia. }
  bind_with ltac:(apply Buffer_writeUInt16LE_ok;
    [done|rewrite bytes_of_last by done; lia]).
  rewrite bytes_of_last, insert_snoc by done.
  change (splice pg2 6 (le_split 2 (Z.of_N 8))) with empty_data_page.
  bind_with ltac:(eapply (writePage_ok _ T (length h0) d path (file_pwrite content 0 header));
    [rewrite bytes_of_last by done; exact Hle
    |reflexivity|exact Hp|apply lookup_insert_eq]).
  rewrite bytes_of_last by done.
  unfold mret, M_ret. by rewrite insert_insert_eq.
Qed.

Lemma allocPage_overflow s r0 s0 :
  readPage 0%N s = Return r0 s0 ->
  length (bytes_of s0 r0) = PAGE_SIZE ->
  (2 ^ 32 <= u32_at (bytes_of s0 r0) 4 + 1)%N ->
  allocPage s = Throw (RangeError "ERR_OUT_OF_RANGE") s0.
Proof.
  intros Hread Hl HT. pose proof PAGE_SIZE_eq as HPS. unfold allocPage.
  rewrite (bind_Return _ _ _ _ _ Hread).
  rewrite (bind_Return _ _ _ _ _ (Buffer_readUInt32LE_ok s0 r0 4 ltac:(lia))).
  cbv zeta. apply bind_Throw. by apply Buffer_writeUInt32LE_range.
Qed.

Lemma u32_at_header b T :
  length b = PAGE_SIZE -> (T + 1 < 2 ^ 32)%N ->
  u32_at (splice b 4 (le_split 4 (Z.of_N (T + 1)))) 4 = (T + 1)%N.
Proof.
  intros Hl HT. apply u32_at_splice; [done|]. rewrite Hl, PAGE_SIZE_eq. lia.
Qed.

Lemma allocPage_spec s :
  wf s ->
  let T := total_pages s in
  let header := splice (page_view s 0%N) 4 (le_split 4 (Z.of_N (T + 1))) in
  ((T + 1 < 2 ^ 32)%N ->
     exists s',
       allocPage s = Return T s' /\ wf s'
       /\ disk_page s' T = empty_data_page /\ page_view s' T = empty_data_page
       /\ (T <> 0%N -> disk_page s' 0%N = header /\ page_view s' 0%N = header))
  /\ ((2 ^ 32 <= T + 1)%N ->
        exists r s',
          readPage 0%N s = Return r s'
          /\ allocPage s = Throw (RangeError "ERR_OUT_OF_RANGE") s').
Proof.
  intros Hwf T header.
  destruct (readPage_spec s 0%N Hwf) as (r0 & s0 & Hread & Hb & Hwf0 & _ & _).
  pose proof (length_page_view s 0%N Hwf) as Hlv.
  assert (length (bytes_of s0 r0) = PAGE_SIZE) as Hl by (by rewrite Hb).
  assert (u32_at (bytes_of s0 r0) 4 = T) as HT0 by (by rewrite Hb).
  split.
  - intros HT. destruct Hwf0 as [Ho0 Hok0].
    destruct (opened_path s0 Ho0) as (d & path & content & Hd & Hp & Hc).
    pose proof (allocPage_after_read s r0 s0 d path content Hread Hd Hp Hc Hl) as Ha.
    cbv zeta in Ha. rewrite HT0, Hb in Ha. fold header in Ha. specialize (Ha HT).
    pose proof (page_sized_valid s0 r0 Hl) as Hv.
    assert (length header = PAGE_SIZE) as Hlh.
    { unfold header. rewrite length_splice; [done|].
      rewrite length_le_split, Hlv, PAGE_SIZE_eq. lia. }
    destruct empty_data_page_fields as (Hle & _).
    eexists. split; [exact Ha|].
    set (sF := mkState _ _ _ _ _ _ _).
    assert (disk sF = file_pwrite (file_pwrite content 0 header)
                        (N.to_nat T * PAGE_SIZE) empty_data_page) as HdiskF.
    { apply (disk_opened sF d path); [done|done|]. unfold sF. cbn. apply lookup_insert_eq. }
    assert (bytes_of sF (length (heap s0)) = empty_data_page) as HbT.
    { unfold bytes_of, sF. cbn. rewrite list_lookup_middle; [done|].
      by rewrite length_insert. }
    assert (bytes_of sF r0 = header) as Hb0.
    { unfold bytes_of, sF. cbn.
      rewrite lookup_app_l by (by rewrite length_insert).
      by rewrite list_lookup_insert_eq. }
    assert (JsMap.get T (cache sF) = Some (length (heap s0))) as HgT.
    { unfold sF. cbn. rewrite get_set. by rewrite decide_True. }
    split; [|split; [|split]].
    + split.
      * exists d. eexists. split; [done|]. unfold fd_content.
        change (fd_path sF d) with (fd_path s0 d). rewrite Hp. cbn.
        unfold sF. cbn. apply lookup_insert_eq.
      * unfold cache_ok. unfold sF at 2. cbn.
        apply Forall_set; [cbn; by rewrite HbT|].
        apply Forall_set; [cbn; by rewrite Hb0|].
        apply Forall_forall. intros [q r] Hin. apply list_elem_of_In in Hin. cbn.
        pose proof (cache_ok_In s0 q r Hok0 Hin) as Hlr.
        pose proof (page_sized_valid s0 r Hlr) as Hvr.
        destruct (decide (r = r0)) as [->|Hne]; [by rewrite Hb0|].
        unfold bytes_of, sF. cbn.
        rewrite lookup_app_l by (by rewrite length_insert).
        by rewrite list_lookup_insert_ne.
    + unfold disk_page. rewrite HdiskF. by apply file_page_pwrite_same.
    + unfold page_view. by rewrite HgT.
    + intros HTne. split.
      * unfold disk_page. rewrite HdiskF.
        rewrite file_page_pwrite_other by done.
        by apply (file_page_pwrite_same content 0%N header).
      * unfold page_view.
        assert (JsMap.get 0%N (cache sF) = Some r0) as ->; [|done].
        unfold sF. cbn. rewrite !get_set.
        rewrite decide_False by done. by rewrite decide_True.
  - intros HT. exists r0, s0. split; [done|].
    apply (allocPage_overflow s r0 s0 Hread Hl). by rewrite HT0.
Qed.

(** C1, as the code has it: on an open pager whose header holds a total T
    with 1 <= T <= 2^32 - 2, [allocPage] returns T, leaves in the file a
    header that is the one it read with the total replaced by T + 1, and
    leaves at page T the empty data page: next 0, count 0, free offset 8. *)
Theorem allocPage_allocates s :
  wf s ->
  let T := total_pages s in
  (1 <= T)%N -> (T + 1 < 2 ^ 32)%N ->
  exists s',
    allocPage s = Return T s'
    /\ disk_total s' = (T + 1)%N
    /\ disk_page s' 0%N = splice (page_view s 0%N) 4 (le_split 4 (Z.of_N (T + 1)))
    /\ disk_page s' T = empty_data_page
    /\ u32_at (disk_page s' T) 0 = 0%N
    /\ u16_at (disk_page s' T) 4 = 0%N
    /\ u16_at (disk_page s' T) 6 = 8%N.
Proof.
  intros Hwf T H1 H2.
  destruct (allocPage_spec s Hwf) as [Hok _]. cbv zeta in Hok. fold T in Hok.
  destruct (Hok H2) as (s' & Ha & _ & HdT & _ & H0).
  destruct H0 as [Hd0 _]; [lia|].
  exists s'. split; [done|]. split; [|split; [done|]].
  - unfold disk_total. rewrite Hd0. apply u32_at_header; [|done].
    by apply length_page_view.
  - rewrite HdT. split; [done|]. apply empty_data_page_fields.
Qed.

Lemma allocPage_allocates_witness :
  exists s',
    allocPage fresh_db = Return 1%N s'
    /\ disk_total s' = 2%N
    /\ disk_page s' 0%N = splice (page_view fresh_db 0%N) 4 (le_split 4 2)
    /\ disk_page s' 1%N = empty_data_page
    /\ u32_at (disk_page s' 1%N) 0 = 0%N
    /\ u16_at (disk_page s' 1%N) 4 = 0%N
    /\ u16_at (disk_page s' 1%N) 6 = 8%N.
Proof.
  apply (allocPage_allocates fresh_db).
  - split; [vm_compute; eexists _, _; split; reflexivity|vm_compute; constructor].
  - by vm_compute.
  - by vm_compute.
Defined.

(** C1, as stated, fails: the header of this open pager counts
    2^32 - 1 pages, the incremented total does not fit the 32-bit field,
    and [allocPage] throws a RangeError instead of returning a page-id. *)
Lemma allocPage_full_header_throws :
  wf full_db
  /\ total_pages full_db = 4294967295%N
  /\ (exists s', allocPage full_db = Throw (RangeError "ERR_OUT_OF_RANGE") s')
  /\ ~ (exists s', allocPage full_db = Return (total_pages full_db) s').
Proof.
  assert (wf full_db) as Hwf.
  { split; [vm_compute; eexists _, _; split; reflexivity|vm_compute; constructor]. }
  split; [done|]. split; [by vm_compute|].
  destruct (allocPage_spec full_db Hwf) as [_ Hthrow]. cbv zeta in Hthrow.
  destruct Hthrow as (r & s' & _ & Ha); [by vm_compute|].
  split; [by exists s'|]. rewrite Ha. intros (s'' & [=]).
Qed.

(** A header that counts 0 pages (here an existing empty file) is the other
    state left out: page 0 itself is handed out and the data page replaces
    the header just written. *)
Lemma allocPage_empty_file_overwrites_header :
  total_pages empty_db = 0%N
  /\ exists s', allocPage empty_db = Return 0%N s'
                /\ disk_page s' 0%N = empty_data_page /\ disk_total s' = 524288%N.
Proof.
  split; [by vm_compute|]. eexists. split; [vm_compute; reflexivity|].
  split; by vm_compute.
Qed.

(** ** The header's page count *)

Lemma initial_header_fields :
  length initial_header = PAGE_SIZE
  /\ take 4 initial_header = list_byte_of_string MAGIC
  /\ u32_at initial_header 4 = 1%N
  /\ u32_at initial_header 8 = 0%N.
Proof. by vm_compute. Qed.

Lemma Pager_new_fresh boot path :
  files boot !! path = None ->
  Pager_new path boot =
    Return tt
      (mkState (<[path := file_pwrite [] 0 initial_header]> (files boot))
         (fdtab boot ++ [Some path]) (heap boot ++ [initial_header]) path
         (Some (length (fdtab boot))) [] 1000).
Proof.
  intros Hnone. pose proof PAGE_SIZE_eq as HPS.
  destruct initial_header_fields as (Hlh & _).
  destruct boot as [f0 t0 h0 fp0 d0 c0 l0]. cbn [files fdtab heap] in *.
  unfold Pager_new, _open.
  bind_with ltac:(reflexivity).
  bind_with ltac:(reflexivity).
  bind_with ltac:(unfold fs_existsSync, gets; cbn [files];
                  rewrite bool_decide_eq_false_2 by (rewrite Hnone; by intros [? ?]);
                  reflexivity).
  cbn [negb].
  bind_with ltac:(reflexivity).
  bind_with ltac:(reflexivity).
  unfold _initNewFile.
  bind_with ltac:(reflexivity).
  bind_with ltac:(unfold Buffer_write; rewrite bytes_of_last by done; reflexivity).
  rewrite insert_snoc by done.
  rewrite (take_ge (list_byte_of_string MAGIC)) by (rewrite length_zeros; cbn; lia).
  set (pg1 := splice (zeros PAGE_SIZE) 0 (list_byte_of_string MAGIC)).
  assert (length pg1 = PAGE_SIZE) as Hl1.
  { unfold pg1. rewrite length_splice; rewrite length_zeros; [done|]. cbn. lia. }
  bind_with ltac:(apply Buffer_writeUInt32LE_ok;
    [done|rewrite bytes_of_last by done; lia]).
  rewrite bytes_of_last, insert_snoc by done.
  set (pg2 := splice pg1 4 (le_split 4 (Z.of_N 1))).
  assert (length pg2 = PAGE_SIZE) as Hl2.
  { unfold pg2. rewrite length_splice; [done|]. rewrite length_le_split. lia. }
  bind_with ltac:(apply Buffer_writeUInt32LE_ok;
    [done|rewrite bytes_of_last by done; lia]).
  rewrite bytes_of_last, insert_snoc by done.
  change (splice pg2 8 (le_split 4 (Z.of_N 0))) with initial_header.
  bind_with ltac:(reflexivity).
  bind_with ltac:(unfold fs_writeSync, fd_path; cbn [fdtab files];
                  rewrite list_lookup_middle by done; cbn [mjoin option_join];
                  rewrite lookup_insert_eq, bytes_of_last by done;
                  rewrite drop_0, take_ge by lia; reflexivity).
  unfold mret, M_ret. by rewrite insert_insert_eq.
Qed.

Section HeaderCount.

Lemma counted_init boot path s :
  files boot !! path = None -> Pager_new path boot = Return tt s -> counted s 0.
Proof.
  intros Hnone Hnew. rewrite (Pager_new_fresh boot path Hnone) in Hnew.
  injection Hnew as <-. set (s := mkState _ _ _ _ _ _ _).
  destruct initial_header_fields as (Hl & _ & Ht & _).
  assert (disk s = file_pwrite [] (N.to_nat 0 * PAGE_SIZE) initial_header) as Hdisk.
  { apply (disk_opened s (length (fdtab boot)) path); [done| |].
    - unfold fd_path, s. cbn. by rewrite list_lookup_middle.
    - unfold s. cbn. apply lookup_insert_eq. }
  assert (disk_page s 0%N = initial_header) as Hpage.
  { unfold disk_page. rewrite Hdisk. by apply file_page_pwrite_same. }
  unfold counted. split; [|split].
  - split; [|by constructor]. exists (length (fdtab boot)). eexists. split; [done|].
    unfold fd_content, fd_path, s. cbn. rewrite list_lookup_middle by done. cbn.
    apply lookup_insert_eq.
  - unfold disk_total. by rewrite Hpage.
  - unfold total_pages, page_view. cbn. fold (disk_page s 0%N). by rewrite Hpage.
Qed.

Lemma counted_read s hi p : counted s hi -> counted (state_of (readPage p s)) hi.
Proof.
  intros (Hwf & Hd & Ht).
  destruct (readPage_spec s p Hwf) as (r & s' & -> & _ & Hwf' & Hdisk & Hview).
  cbn [state_of]. split; [done|]. split.
  - unfold disk_total, disk_page. by rewrite Hdisk.
  - unfold total_pages. destruct (Hview 0%N) as [-> | ->]; done.
Qed.

Lemma counted_step s hi c :
  counted s hi -> keeps_total s c -> counted (run_call c s) (highest_after c s hi).
Proof.
  intros Hs Hc. pose proof Hs as (Hwf & Hd & Ht).
  destruct c as [|p|p buf|bytes]; cbn [run_call highest_after].
  - destruct (allocPage_spec s Hwf) as [Hret Hthrow]. cbv zeta in Hret, Hthrow.
    rewrite Ht in Hret, Hthrow.
    destruct (decide (hi + 1 + 1 < 2 ^ 32)%N) as [Hlt|Hge].
    + destruct (Hret Hlt) as (s' & -> & Hwf' & _ & _ & H0).
      destruct H0 as [Hd0 Hv0]; [lia|]. cbn [state_of].
      assert (u32_at (splice (page_view s 0%N) 4 (le_split 4 (Z.of_N (hi + 1 + 1)))) 4
              = (hi + 1 + 1)%N) as Hu.
      { apply u32_at_header; [by apply length_page_view|done]. }
      replace (N.max hi (hi + 1)) with (hi + 1)%N by lia.
      split; [done|]. split.
      * unfold disk_total. by rewrite Hd0.
      * unfold total_pages. by rewrite Hv0.
    + destruct Hthrow as (r & s' & Hread & ->); [lia|]. cbn [state_of].
      pose proof (counted_read s hi 0%N Hs) as Hs'. by rewrite Hread in Hs'.
  - by apply counted_read.
  - cbn in Hc. destruct (decide (length (bytes_of s buf) = PAGE_SIZE)) as [Hl|Hl].
    + destruct (writePage_spec s p buf Hwf Hl)
        as (s' & -> & Hwf' & _ & _ & _ & _ & _ & Hdp & Hvp & Hother).
      cbn [state_of]. split; [done|].
      destruct (decide (p = 0%N)) as [->|Hp].
      * unfold disk_total, total_pages. rewrite Hdp, Hvp.
        rewrite (Hc eq_refl). by rewrite Hd.
      * destruct (Hother 0%N) as [Hd0 Hv0]; [congruence|].
        unfold disk_total, total_pages. rewrite Hd0, Hv0. done.
    + rewrite writePage_bad_length by done. done.
  - destruct (Buffer_from_spec s bytes Hwf) as (Hwf' & Hdisk & Hview & _).
    split; [done|]. split.
    + unfold disk_total, disk_page. by rewrite Hdisk.
    + unfold total_pages. by rewrite Hview.
Qed.

Lemma reachable_counted s hi : reachable keeps_total s hi -> counted s hi.
Proof.
  induction 1 as [boot path s Hnone Hnew|s hi c _ IH Hc].
  - by apply (counted_init boot path).
  - by apply counted_step.
Qed.
End HeaderCount.

(** C7, as the code has it: from a freshly initialised file, through any
    calls of [allocPage], [readPage] and [writePage] (and buffers the caller
    makes) in which a write to page 0 carries the header's current total,
    the total in the file's header, and in the header [allocPage] reads, is
    the highest page-id ever allocated plus 1. *)
Theorem total_pages_counts_allocations s hi :
  reachable keeps_total s hi ->
  disk_total s = (hi + 1)%N /\ total_pages s = (hi + 1)%N.
Proof. intros H. by destruct (reachable_counted s hi H) as (_ & Hd & Ht). Qed.

Lemma total_pages_counts_allocations_witness :
  disk_total (run_call CallAlloc fresh_db) = (highest_after CallAlloc fresh_db 0 + 1)%N
  /\ total_pages (run_call CallAlloc fresh_db)
     = (highest_after CallAlloc fresh_db 0 + 1)%N.
Proof.
  apply (total_pages_counts_allocations (run_call CallAlloc fresh_db)
           (highest_after CallAlloc fresh_db 0)).
  apply reach_step; [|exact I].
  apply (reach_init keeps_total boot "kebun.sawit"); vm_compute; reflexivity.
Defined.

(** C7, as stated, fails: after a fresh file is initialised, a caller's
    [writePage(0, zero-filled 4 KiB buffer)] is reachable, no page beyond the
    header was ever allocated, and the header's total reads 0, not 1. *)
Lemma writePage_header_clobbers_total :
  let s := run_calls [CallBuffer (zeros PAGE_SIZE); CallWrite 0%N 1] fresh_db in
  reachable any_call s 0 /\ disk_total s = 0%N /\ disk_total s <> (0 + 1)%N.
Proof.
  cbv zeta. split; [|split; [by vm_compute|by vm_compute]].
  unfold run_calls. cbn [foldl].
  apply (reach_step any_call _ 0 (CallWrite 0%N 1)); [|exact I].
  apply (reach_step any_call _ 0 (CallBuffer (zeros PAGE_SIZE))); [|exact I].
  apply (reach_init any_call boot "kebun.sawit"); vm_compute; reflexivity.
Qed.

Lemma returned_Return {A} (o : outcome A) a :
  returned o = Some a -> o = Return a (state_of o).
Proof. destruct o; cbn; intros H; by simplify_eq. Qed.

(** ** Reads after a write *)

Section ReadAfterWrite.
Variables (p : PageId) (B : list byte).

Lemma readPage_header_not_shared s r0 s0 :
  wf s -> p <> 0%N ->
  (forall r, JsMap.get 0%N (cache s) = Some r -> JsMap.get p (cache s) <> Some r) ->
  readPage 0%N s = Return r0 s0 ->
  JsMap.get p (cache s0) <> Some r0.
Proof.
  intros [Ho Hok] Hp0 Hal Hread.
  destruct (JsMap.get 0%N (cache s)) as [r|] eqn:Hg.
  - rewrite (readPage_hit s 0%N r Hg) in Hread. injection Hread as <- <-.
    cbn. rewrite get_set, get_delete, !decide_False by done. by apply Hal.
  - destruct Ho as (d & content & Hd & Hf).
    rewrite (readPage_miss s 0%N d content Hg Hd Hf) in Hread.
    injection Hread as <- <-. cbn. intros Hq%evict_over_get.
    rewrite get_set, decide_False in Hq by done.
    destruct (cache_ok_get s p _ Hok Hq) as [_ Hv]. lia.
Qed.

Lemma allocPage_page_holds s :
  p <> 0%N -> p <> total_pages s ->
  (forall r, JsMap.get 0%N (cache s) = Some r -> JsMap.get p (cache s) <> Some r) ->
  page_holds p B s -> page_holds p B (state_of (allocPage s)).
Proof.
  intros Hp0 HpT Hal (Hwf & Hd & Hv).
  destruct (readPage_spec s 0%N Hwf) as (r0 & s0 & Hread & Hb & Hwf0 & Hdisk0 & Hview0).
  pose proof (readPage_header_not_shared s r0 s0 Hwf Hp0 Hal Hread) as Hna.
  pose proof (length_page_view s 0%N Hwf) as Hlv.
  assert (length (bytes_of s0 r0) = PAGE_SIZE) as Hl by (by rewrite Hb).
  assert (u32_at (bytes_of s0 r0) 4 = total_pages s) as HT0 by (by rewrite Hb).
  assert (disk_page s0 p = B) as Hd0 by (unfold disk_page; by rewrite Hdisk0).
  assert (page_view s0 p = B) as Hv0.
  { destruct (Hview0 p) as [Hq|Hq]; rewrite Hq; [exact Hv|exact Hd]. }
  destruct (decide (total_pages s + 1 < 2 ^ 32)%N) as [HT|HT].
  - destruct (proj1 (allocPage_spec s Hwf) HT) as (s' & Ha' & Hwf' & _).
    destruct Hwf0 as [Ho0 Hok0].
    destruct (opened_path s0 Ho0) as (d & path & content & Hfd & Hp & Hc).
    pose proof (allocPage_after_read s r0 s0 d path content Hread Hfd Hp Hc Hl) as Ha.
    cbv zeta in Ha. rewrite HT0 in Ha. specialize (Ha HT).
    rewrite Ha in Ha'. injection Ha' as <-. rewrite Ha. cbn [state_of].
    set (sF := mkState _ _ _ _ _ _ _) in *.
    set (header := splice _ _ _) in sF.
    assert (length header = PAGE_SIZE) as Hlh.
    { unfold header. rewrite length_splice; [done|].
      rewrite length_le_split, Hl, PAGE_SIZE_eq. lia. }
    destruct empty_data_page_fields as (Hle & _).
    assert (disk sF = file_pwrite (file_pwrite content 0 header)
                        (N.to_nat (total_pages s) * PAGE_SIZE) empty_data_page) as HdiskF.
    { apply (disk_opened sF d path); [done|done|]. unfold sF. cbn [files].
      apply lookup_insert_eq. }
    assert (disk s0 = content) as Hdisk by (by apply (disk_opened s0 d path)).
    assert (disk_page sF p = B) as HdF.
    { unfold disk_page. rewrite HdiskF, file_page_pwrite_other by done.
      rewrite <- Hd0. unfold disk_page. rewrite Hdisk.
      by apply (file_page_pwrite_other content 0%N p header). }
    split; [exact Hwf'|]. split; [exact HdF|].
    unfold page_view. unfold sF at 1. cbn [cache].
    rewrite !get_set, !decide_False by done.
    unfold page_view in Hv0.
    destruct (JsMap.get p (cache s0)) as [r|] eqn:Hg; [|exact HdF].
    destruct (cache_ok_get s0 p r Hok0 Hg) as [_ Hvr].
    rewrite <- Hv0. unfold bytes_of, sF. cbn [heap].
    rewrite lookup_app_l by (by rewrite length_insert).
    rewrite list_lookup_insert_ne; [done|]. intros ->. by apply Hna.
  - rewrite (allocPage_overflow s r0 s0 Hread Hl) by (rewrite HT0; lia).
    cbn [state_of]. done.
Qed.

Lemma store_page_holds s buf value offset :
  JsMap.get p (cache s) <> Some buf ->
  page_holds p B s -> page_holds p B (state_of (Buffer_writeUInt8 buf value offset s)).
Proof.
  intros Hne (Hwf & Hd & Hv). unfold Buffer_writeUInt8, Buffer_writeUIntLE.
  case_decide as Hval; [|done]. case_decide as Hoff; [|done]. cbn [state_of].
  set (s' := set_heap _ s).
  assert (forall r, r <> buf -> bytes_of s' r = bytes_of s r) as Hother.
  { intros r Hr. unfold bytes_of, s'. cbn. by rewrite list_lookup_insert_ne. }
  assert (length (bytes_of s' buf) = length (bytes_of s buf)) as Hsame.
  { assert (buf < length (heap s)) as Hvalid.
    { apply lookup_lt_is_Some. unfold bytes_of in Hoff.
      destruct (heap s !! buf) as [x|]; [by exists x|]. cbn in Hoff. lia. }
    unfold bytes_of at 1, s'. cbn. rewrite list_lookup_insert_eq by done. cbn.
    apply length_splice. by rewrite length_le_split. }
  destruct Hwf as [Ho Hok]. split; [split|split].
  - exact Ho.
  - unfold cache_ok in *. eapply Forall_impl; [exact Hok|]. intros [q r] Hr. cbn in *.
    destruct (decide (r = buf)) as [->|Hrb]; [by rewrite Hsame|by rewrite Hother].
  - exact Hd.
  - unfold page_view in *. change (cache s') with (cache s).
    change (disk_page s' p) with (disk_page s p).
    destruct (JsMap.get p (cache s)) as [r|]; [|done].
    rewrite Hother; [done|]. intros ->. by apply Hne.
Qed.

Lemma keeps_page_holds st s :
  keeps_page p s st -> page_holds p B s -> page_holds p B (run_step st s).
Proof.
  destruct st as [c|buf value offset]; cbn [run_step keeps_page];
    [|apply store_page_holds].
  intros Hc Hs. pose proof Hs as (Hwf & Hd & Hv). unfold page_holds.
  destruct c as [|q|q buf|bytes]; cbn [run_call].
  - destruct Hc as (Hp0 & HpT & Hal). by apply allocPage_page_holds.
  - destruct (readPage_spec s q Hwf) as (r & s' & -> & _ & Hwf' & Hdisk & Hview).
    cbn [state_of]. split; [done|]. split.
    + unfold disk_page. by rewrite Hdisk.
    + destruct (Hview p) as [-> | ->]; done.
  - destruct (decide (length (bytes_of s buf) = PAGE_SIZE)) as [Hl|Hl].
    + destruct (writePage_spec s q buf Hwf Hl)
        as (s' & -> & Hwf' & _ & _ & _ & _ & _ & _ & _ & Hother).
      cbn [state_of]. destruct (Hother p) as [-> ->]; [congruence|done].
    + rewrite writePage_bad_length by done. done.
  - destruct (Buffer_from_spec s bytes Hwf) as (Hwf' & Hdisk & Hview & _).
    split; [done|]. split; [|by rewrite Hview].
    unfold disk_page. by rewrite Hdisk.
Qed.

Lemma keep_page_holds steps s :
  keep_page p steps s -> page_holds p B s -> page_holds p B (run_steps steps s).
Proof.
  revert s. induction steps as [|st steps IH]; intros s Hall Hs; [done|].
  destruct Hall as [Hst Hrest]. cbn. apply IH; [done|]. by apply keeps_page_holds.
Qed.
End ReadAfterWrite.

(** C2, as the code has it: on an open pager, after [writePage p b] of a
    4096-byte buffer has returned, [readPage p] returns the bytes that were
    written as long as nothing has stored to page [p] or into the buffer
    cached for it.  At once it returns the buffer [b] itself.  After reads,
    writes to other pages, allocations and stores by the caller it returns
    a buffer with the written bytes, from the cache or, if page [p] was
    evicted, from the file, provided every step keeps page [p]: an
    [allocPage] in between must neither hand out page [p] nor find the
    buffer cached for [p] cached for page 0 too, [p] is not page 0 then,
    and the caller stores into other buffers only. *)
Theorem read_after_write s p b steps :
  wf s -> length (bytes_of s b) = PAGE_SIZE ->
  keep_page p steps (state_of (writePage p b s)) ->
  exists s1,
    writePage p b s = Return tt s1
    /\ (exists s2, readPage p s1 = Return b s2 /\ bytes_of s2 b = bytes_of s b)
    /\ (exists r s2,
          readPage p (run_steps steps s1) = Return r s2 /\ bytes_of s2 r = bytes_of s b).
Proof.
  intros Hwf Hl.
  destruct (writePage_spec s p b Hwf Hl)
    as (s1 & Hw & Hwf1 & Hheap & Hcache & _ & _ & _ & Hdisk & Hview & _).
  rewrite Hw. cbn [state_of]. intros Hsteps.
  exists s1. split; [done|]. split.
  - assert (JsMap.get p (cache s1) = Some b) as Hg.
    { rewrite Hcache, get_set. by rewrite decide_True. }
    rewrite (readPage_hit s1 p b Hg). eexists. split; [reflexivity|].
    unfold bytes_of. cbn. by rewrite Hheap.
  - destruct (keep_page_holds p (bytes_of s b) steps s1 Hsteps)
      as (Hwf2 & _ & Hview2); [done|].
    destruct (readPage_spec (run_steps steps s1) p Hwf2) as (r & s2 & Hr & Hb & _).
    exists r, s2. split; [done|]. by rewrite Hb.
Qed.

Lemma read_after_write_witness :
  let steps := [StepCall (CallRead 7%N); StepCall CallAlloc;
                StepCall (CallWrite 2%N 0); StepStore 1 255%N 0] in
  exists s1,
    writePage 3%N 0 fresh_db = Return tt s1
    /\ (exists s2, readPage 3%N s1 = Return 0 s2 /\ bytes_of s2 0 = bytes_of fresh_db 0)
    /\ (exists r s2,
          readPage 3%N (run_steps steps s1) = Return r s2
          /\ bytes_of s2 r = bytes_of fresh_db 0).
Proof.
  cbv zeta.
  apply (read_after_write fresh_db 3%N 0
           [StepCall (CallRead 7%N); StepCall CallAlloc;
            StepCall (CallWrite 2%N 0); StepStore 1 255%N 0]).
  - split; [vm_compute; eexists _, _; split; reflexivity|vm_compute; constructor].
  - vm_compute. reflexivity.
  - cbn [keep_page keeps_page]. split; [exact I|]. split; [|split; [|split; [|exact I]]].
    + split; [discriminate|]. split; [by vm_compute|].
      intros r H0. vm_compute in H0. discriminate H0.
    + discriminate.
    + vm_compute. discriminate.
Defined.

(** C2, as stated, fails when the written buffer is shared: a caller makes
    a buffer [b] that holds a header with total 1 and writes it to page 0
    and to page 5.  [allocPage] then finds [b] cached for page 0 and stores
    the new total, 2, into it, so [readPage 5] returns [b] with total 2,
    not the bytes that were written to page 5 (and that the file holds). *)
Lemma read_after_write_aliased :
  let b := 1 in
  let s := state_of (Buffer_from initial_header fresh_db) in
  let s1 := state_of (writePage 0%N b s) in
  let s2 := state_of (writePage 5%N b s1) in
  let s3 := state_of (allocPage s2) in
  let s4 := state_of (readPage 5%N s3) in
  writePage 0%N b s = Return tt s1
  /\ writePage 5%N b s1 = Return tt s2
  /\ allocPage s2 = Return 1%N s3
  /\ readPage 5%N s3 = Return b s4
  /\ u32_at (bytes_of s1 b) 4 = 1%N
  /\ u32_at (disk_page s4 5%N) 4 = 1%N
  /\ u32_at (bytes_of s4 b) 4 = 2%N
  /\ bytes_of s4 b <> bytes_of s1 b.
Proof.
  cbv zeta.
  split; [apply returned_Return; by vm_compute|].
  split; [apply returned_Return; by vm_compute|].
  split; [apply returned_Return; by vm_compute|].
  split; [apply returned_Return; by vm_compute|].
  split; [by vm_compute|]. split; [by vm_compute|]. split; [by vm_compute|].
  intros Heq. apply (f_equal (fun x => u32_at x 4)) in Heq.
  vm_compute in Heq. discriminate Heq.
Qed.

(** * Further properties of the pager *)

(** ** A new database file *)

Lemma file_pwrite_empty data : file_pwrite [] 0 data = data.
Proof.
  unfold file_pwrite. rewrite take_0, drop_nil. cbn. apply app_nil_r.
Qed.

(** X1: [new Pager(path)] on a path that does not exist creates the file
    with exactly one page: the magic, total pages 1, table count 0 and
    zeros after byte 12.  The pager is open on that file with an empty cache
    and the limit 1000, and no other file is touched. *)
Theorem Pager_new_creates_file boot path :
  files boot !! path = None ->
  exists s,
    Pager_new path boot = Return tt s
    /\ wf s /\ tied s /\ filePath s = path
    /\ cache s = [] /\ cacheLimit s = 1000
    /\ disk s = initial_header
    /\ length (disk s) = PAGE_SIZE
    /\ take 4 (disk s) = list_byte_of_string MAGIC
    /\ u32_at (disk s) 4 = 1%N /\ u32_at (disk s) 8 = 0%N
    /\ drop 12 (disk s) = zeros (PAGE_SIZE - 12)
    /\ (forall q, q <> path -> files s !! q = files boot !! q).
Proof.
  intros Hnone. rewrite (Pager_new_fresh boot path Hnone).
  eexists. split; [reflexivity|].
  set (s := mkState _ _ _ _ _ _ _).
  assert (fd_path s (length (fdtab boot)) = Some path) as Hp.
  { unfold fd_path, s. cbn. by rewrite list_lookup_middle. }
  assert (files s !! path = Some initial_header) as Hf.
  { unfold s. cbn [files]. rewrite lookup_insert_eq. by rewrite file_pwrite_empty. }
  assert (disk s = initial_header) as Hdisk.
  { by apply (disk_opened s (length (fdtab boot)) path). }
  split; [|split; [|split; [reflexivity|split; [reflexivity|split; [reflexivity|]]]]].
  - split; [|by constructor]. exists (length (fdtab boot)), initial_header.
    split; [done|]. unfold fd_content. rewrite Hp. exact Hf.
  - exists (length (fdtab boot)), initial_header. done.
  - split; [done|]. rewrite Hdisk.
    destruct initial_header_fields as (H1 & H2 & H3 & H4).
    split; [done|]. split; [done|]. split; [done|]. split; [done|].
    split; [by vm_compute|].
    intros q Hq. unfold s. cbn [files]. by rewrite lookup_insert_ne.
Qed.

Lemma Pager_new_creates_file_witness :
  exists s,
    Pager_new "kebun.sawit" boot = Return tt s
    /\ wf s /\ tied s /\ filePath s = "kebun.sawit"
    /\ cache s = [] /\ cacheLimit s = 1000
    /\ disk s = initial_header
    /\ length (disk s) = PAGE_SIZE
    /\ take 4 (disk s) = list_byte_of_string MAGIC
    /\ u32_at (disk s) 4 = 1%N /\ u32_at (disk s) 8 = 0%N
    /\ drop 12 (disk s) = zeros (PAGE_SIZE - 12)
    /\ (forall q, q <> "kebun.sawit" -> files s !! q = files boot !! q).
Proof. apply (Pager_new_creates_file boot "kebun.sawit"). reflexivity. Defined.

(** ** Closing and reopening *)

Lemma close_tied s :
  tied s ->
  exists d,
    fd s = Some d
    /\ close s =
         Return tt (mkState (files s) (<[d := None]> (fdtab s)) (heap s) (filePath s)
                      None [] (cacheLimit s)).
Proof.
  intros (d & content & Hd & Hp & Hc). exists d. split; [done|].
  unfold close. run_M. rewrite Hd. cbn. unfold fs_closeSync. by rewrite Hp.
Qed.

Lemma reopen_keeps_disk s :
  tied s ->
  exists s1 s2,
    close s = Return tt s1
    /\ Pager_new (filePath s) s1 = Return tt s2
    /\ wf s2 /\ tied s2 /\ cache s2 = [] /\ disk s2 = disk s.
Proof.
  intros Ht. destruct (close_tied s Ht) as (d & Hd & Hclose).
  destruct Ht as (d' & content & Hd' & Hp & Hc).
  assert (d' = d) as -> by congruence.
  eexists _, _. split; [exact Hclose|].
  set (s1 := mkState _ _ _ _ _ _ _).
  rewrite (Pager_new_existing s1 (filePath s) content Hc).
  split; [reflexivity|].
  set (s2 := mkState _ _ _ _ _ _ _).
  assert (fd_path s2 (length (fdtab s1)) = Some (filePath s)) as Hp2.
  { unfold fd_path, s2. cbn. by rewrite list_lookup_middle. }
  assert (disk s2 = content) as Hdisk2.
  { by apply (disk_opened s2 (length (fdtab s1)) (filePath s)). }
  split; [|split; [|split; [reflexivity|]]].
  - split; [|by constructor]. exists (length (fdtab s1)), content.
    split; [done|]. unfold fd_content. rewrite Hp2. exact Hc.
  - exists (length (fdtab s1)), content. done.
  - rewrite Hdisk2. symmetry. by apply (disk_opened s d (filePath s)).
Qed.

Lemma readPage_empty_cache s p :
  wf s -> cache s = [] ->
  exists r s', readPage p s = Return r s' /\ bytes_of s' r = disk_page s p.
Proof.
  intros Hwf Hc. destruct (readPage_spec s p Hwf) as (r & s' & Hr & Hb & _).
  exists r, s'. split; [done|]. rewrite Hb. unfold page_view. by rewrite Hc.
Qed.

(** X2: a page written before [close] is read back after the file is opened
    again: [writePage p b], [close], [new Pager] on the same path, then
    [readPage p] returns the bytes of [b], and every other page reads as the
    file had it before the write. *)
Theorem write_close_reopen_read s p b :
  tied s -> length (bytes_of s b) = PAGE_SIZE ->
  exists s1 s2 s3,
    writePage p b s = Return tt s1
    /\ close s1 = Return tt s2
    /\ Pager_new (filePath s) s2 = Return tt s3
    /\ (exists r s4, readPage p s3 = Return r s4 /\ bytes_of s4 r = bytes_of s b)
    /\ (forall q, q <> p ->
          exists r s4, readPage q s3 = Return r s4 /\ bytes_of s4 r = disk_page s q).
Proof.
  intros Ht Hl. pose proof Ht as (d & content & Hd & Hp & Hc).
  rewrite (writePage_ok s p b d (filePath s) content Hl Hd Hp Hc).
  set (s1 := set_cache _ _).
  assert (tied s1) as Ht1.
  { exists d. eexists. split; [done|]. split; [done|]. unfold s1. cbn. apply lookup_insert_eq. }
  assert (disk s = content) as Hdisk by (by apply (disk_opened s d (filePath s))).
  assert (disk s1 = file_pwrite content (N.to_nat p * PAGE_SIZE) (bytes_of s b)) as Hdisk1.
  { apply (disk_opened s1 d (filePath s)); [done|done|]. unfold s1. cbn. apply lookup_insert_eq. }
  destruct (reopen_keeps_disk s1 Ht1) as (s2 & s3 & Hclose & Hnew & Hwf3 & _ & Hc3 & Hdisk3).
  exists s1, s2, s3. split; [reflexivity|]. split; [done|]. split; [exact Hnew|].
  split.
  - destruct (readPage_empty_cache s3 p Hwf3 Hc3) as (r & s4 & Hr & Hb).
    exists r, s4. split; [done|]. rewrite Hb. unfold disk_page.
    rewrite Hdisk3, Hdisk1. by apply file_page_pwrite_same.
  - intros q Hq. destruct (readPage_empty_cache s3 q Hwf3 Hc3) as (r & s4 & Hr & Hb).
    exists r, s4. split; [done|]. rewrite Hb. unfold disk_page.
    rewrite Hdisk3, Hdisk1, Hdisk. by apply file_page_pwrite_other.
Qed.

Lemma fresh_db_tied : tied fresh_db.
Proof. vm_compute. eexists _, _. repeat split; reflexivity. Qed.

Lemma write_close_reopen_read_witness :
  exists s1 s2 s3,
    writePage 3%N 0 fresh_db = Return tt s1
    /\ close s1 = Return tt s2
    /\ Pager_new (filePath fresh_db) s2 = Return tt s3
    /\ (exists r s4, readPage 3%N s3 = Return r s4 /\ bytes_of s4 r = bytes_of fresh_db 0)
    /\ (forall q, q <> 3%N ->
          exists r s4, readPage q s3 = Return r s4 /\ bytes_of s4 r = disk_page fresh_db q).
Proof.
  apply (write_close_reopen_read fresh_db 3%N 0).
  - vm_compute. eexists _, _. repeat split; reflexivity.
  - vm_compute. reflexivity.
Defined.

(** ** What readPage and writePage leave alone *)

(** X3: [readPage] never writes: whether it hits, misses or throws, the
    files, the descriptors, the limit and the bytes of every buffer that
    existed before the call are as they were. *)
Theorem readPage_changes_no_file s p :
  let s' := state_of (readPage p s) in
  files s' = files s /\ fdtab s' = fdtab s /\ fd s' = fd s
  /\ filePath s' = filePath s /\ cacheLimit s' = cacheLimit s
  /\ (forall r, r < length (heap s) -> bytes_of s' r = bytes_of s r).
Proof.
  cbv zeta. destruct (JsMap.get p (cache s)) as [r0|] eqn:Hg.
  { by rewrite (readPage_hit s p r0 Hg). }
  assert (forall x c r, r < length (heap s) ->
            bytes_of (set_cache c (set_heap (heap s ++ [x]) s)) r = bytes_of s r) as Hold.
  { intros x c r Hr. unfold bytes_of, set_cache, set_heap. cbn [heap].
    by rewrite lookup_app_l. }
  destruct (fd s) as [d|] eqn:Hd.
  - destruct (fd_content s d) as [content|] eqn:Hf.
    + rewrite (readPage_miss s p d content Hg Hd Hf). cbn [state_of].
      do 5 (split; [by rewrite ?Hd|]). apply Hold.
    + assert (readPage p s = Throw (SystemError "EBADF") (set_heap (heap s ++ [zeros PAGE_SIZE]) s))
        as ->.
      { unfold readPage. run_M. rewrite Hg. cbn. unfold Buffer_alloc, fs_readSync. cbn.
        rewrite Hd. change (fd_content _ d) with (fd_content s d). by rewrite Hf. }
      cbn [state_of]. do 5 (split; [by rewrite ?Hd|]). apply (Hold _ (cache s)).
  - assert (readPage p s = Throw (TypeError "ERR_INVALID_ARG_TYPE")
                             (set_heap (heap s ++ [zeros PAGE_SIZE]) s)) as ->.
    { unfold readPage. run_M. rewrite Hg. cbn. unfold Buffer_alloc, fs_readSync. cbn.
      by rewrite Hd. }
    cbn [state_of]. do 5 (split; [by rewrite ?Hd|]). apply (Hold _ (cache s)).
Qed.

Lemma length_file_pwrite c pos data :
  length (file_pwrite c pos data) = Nat.max (length c) (pos + length data).
Proof.
  unfold file_pwrite.
  rewrite !length_app, length_take, length_app, length_zeros, length_drop. lia.
Qed.

(** X4: a [writePage p b] that returns changes page [p] only: every other
    page of the file and every other cache entry is as before, no buffer is
    changed, and the file grows to [(p + 1) * 4096] bytes when it was
    shorter (a gap reads as zeros) and keeps its length otherwise. *)
Theorem writePage_touches_one_page s p b :
  wf s -> length (bytes_of s b) = PAGE_SIZE ->
  exists s',
    writePage p b s = Return tt s'
    /\ heap s' = heap s
    /\ length (disk s') = Nat.max (length (disk s)) ((N.to_nat p + 1) * PAGE_SIZE)
    /\ (forall q, q <> p ->
          disk_page s' q = disk_page s q
          /\ JsMap.get q (cache s') = JsMap.get q (cache s)).
Proof.
  intros [Ho Hok] Hl.
  destruct (opened_path s Ho) as (d & path & content & Hd & Hp & Hc).
  rewrite (writePage_ok s p b d path content Hl Hd Hp Hc).
  set (s' := set_cache _ _). exists s'. split; [reflexivity|]. split; [reflexivity|].
  assert (disk s = content) as Hdisk by (by apply (disk_opened s d path)).
  assert (disk s' = file_pwrite content (N.to_nat p * PAGE_SIZE) (bytes_of s b)) as Hdisk'.
  { apply (disk_opened s' d path); [done|done|]. unfold s'. cbn. apply lookup_insert_eq. }
  split.
  - rewrite Hdisk', Hdisk, length_file_pwrite, Hl. lia.
  - intros q Hq. split.
    + unfold disk_page. rewrite Hdisk', Hdisk. by apply file_page_pwrite_other.
    + unfold s'. cbn. rewrite get_set. by rewrite decide_False.
Qed.

Lemma writePage_touches_one_page_witness :
  exists s',
    writePage 3%N 0 fresh_db = Return tt s'
    /\ heap s' = heap fresh_db
    /\ length (disk s') = Nat.max (length (disk fresh_db)) ((N.to_nat 3%N + 1) * PAGE_SIZE)
    /\ (forall q, q <> 3%N ->
          disk_page s' q = disk_page fresh_db q
          /\ JsMap.get q (cache s') = JsMap.get q (cache fresh_db)).
Proof.
  apply (writePage_touches_one_page fresh_db 3%N 0).
  - exact fresh_db_wf.
  - vm_compute. reflexivity.
Defined.


(** ** Several allocations *)

Lemma allocPage_next s :
  wf s -> (1 <= total_pages s)%N -> (total_pages s + 1 < 2 ^ 32)%N ->
  exists s',
    allocPage s = Return (total_pages s) s' /\ wf s'
    /\ total_pages s' = (total_pages s + 1)%N /\ disk_total s' = (total_pages s + 1)%N.
Proof.
  intros Hwf H1 H2. destruct (allocPage_spec s Hwf) as [Hok _]. cbv zeta in Hok.
  destruct (Hok H2) as (s' & Ha & Hwf' & _ & _ & H0).
  destruct H0 as [Hd0 Hv0]; [lia|].
  exists s'. split; [done|]. split; [done|].
  pose proof (u32_at_header (page_view s 0%N) (total_pages s)
                (length_page_view s 0%N Hwf) H2) as Hu.
  split.
  - unfold total_pages at 1. by rewrite Hv0.
  - unfold disk_total. by rewrite Hd0.
Qed.

(** X5: [n] calls of [allocPage] in a row, on a header that counts
    [T >= 1] pages with [T + n < 2^32], return the page-ids
    [T, T + 1, ..., T + n - 1] and leave a header that counts [T + n]. *)
Theorem alloc_pages_consecutive n s :
  wf s -> (1 <= total_pages s)%N -> (total_pages s + N.of_nat n < 2 ^ 32)%N ->
  exists s',
    alloc_pages n s
      = Return (map (fun i => (total_pages s + N.of_nat i)%N) (seq 0 n)) s'
    /\ wf s'
    /\ total_pages s' = (total_pages s + N.of_nat n)%N
    /\ (0 < n -> disk_total s' = (total_pages s + N.of_nat n)%N).
Proof.
  revert s. induction n as [|n IH]; intros s Hwf H1 H2.
  - exists s. cbn. split; [done|]. split; [done|]. split; [lia|lia].
  - destruct (allocPage_next s Hwf H1 ltac:(lia)) as (s1 & Ha & Hwf1 & Ht1 & Hd1).
    destruct (IH s1 Hwf1 ltac:(lia) ltac:(lia)) as (s' & Hrest & Hwf' & Ht' & Hd').
    exists s'. split; [|split; [done|split]].
    + cbn [alloc_pages]. rewrite (bind_Return _ _ _ _ _ Ha).
      rewrite (bind_Return _ _ _ _ _ Hrest). unfold mret, M_ret. f_equal.
      cbn [seq map]. f_equal; [f_equal; lia|].
      rewrite <- seq_shift, map_map. apply map_ext. intros i. rewrite Ht1. lia.
    + rewrite Ht', Ht1. lia.
    + intros _. destruct n as [|n'].
      * cbn in Hrest. injection Hrest as <-. rewrite Hd1. lia.
      * rewrite Hd' by lia. rewrite Ht1. lia.
Qed.

Lemma alloc_pages_consecutive_witness :
  exists s',
    alloc_pages 3 fresh_db
      = Return (map (fun i => (total_pages fresh_db + N.of_nat i)%N) (seq 0 3)) s'
    /\ wf s'
    /\ total_pages s' = (total_pages fresh_db + N.of_nat 3)%N
    /\ (0 < 3 -> disk_total s' = (total_pages fresh_db + N.of_nat 3)%N).
Proof.
  apply (alloc_pages_consecutive 3 fresh_db).
  - exact fresh_db_wf.
  - by vm_compute.
  - by vm_compute.
Defined.

(** X6: [allocPage] writes the header page and the new page and nothing
    else: every other page of the file is as before. *)
Theorem allocPage_keeps_other_pages s :
  wf s -> (total_pages s + 1 < 2 ^ 32)%N ->
  exists s',
    allocPage s = Return (total_pages s) s'
    /\ forall q, q <> 0%N -> q <> total_pages s -> disk_page s' q = disk_page s q.
Proof.
  intros Hwf HT.
  destruct (readPage_spec s 0%N Hwf) as (r0 & s0 & Hread & Hb & Hwf0 & Hdisk0 & _).
  pose proof (length_page_view s 0%N Hwf) as Hlv.
  assert (length (bytes_of s0 r0) = PAGE_SIZE) as Hl by (by rewrite Hb).
  assert (u32_at (bytes_of s0 r0) 4 = total_pages s) as HT0 by (by rewrite Hb).
  destruct Hwf0 as [Ho0 Hok0].
  destruct (opened_path s0 Ho0) as (d & path & content & Hd & Hp & Hc).
  pose proof (allocPage_after_read s r0 s0 d path content Hread Hd Hp Hc Hl) as Ha.
  cbv zeta in Ha. rewrite HT0 in Ha. specialize (Ha HT).
  eexists. split; [exact Ha|].
  set (sF := mkState _ _ _ _ _ _ _).
  set (header := splice _ _ _) in sF.
  assert (length header = PAGE_SIZE) as Hlh.
  { unfold header. rewrite length_splice; [done|].
    rewrite length_le_split, Hl, PAGE_SIZE_eq. lia. }
  destruct empty_data_page_fields as (Hle & _).
  assert (disk sF = file_pwrite (file_pwrite content 0 header)
                      (N.to_nat (total_pages s) * PAGE_SIZE) empty_data_page) as HdiskF.
  { apply (disk_opened sF d path); [done|done|]. unfold sF. cbn [files].
    apply lookup_insert_eq. }
  assert (disk s = content) as Hdisk.
  { rewrite <- Hdisk0. by apply (disk_opened s0 d path). }
  intros q Hq0 HqT. unfold disk_page. rewrite HdiskF, Hdisk.
  rewrite file_page_pwrite_other by done.
  by apply (file_page_pwrite_other content 0%N q header).
Qed.

Lemma allocPage_keeps_other_pages_witness :
  exists s',
    allocPage fresh_db = Return (total_pages fresh_db) s'
    /\ forall q, q <> 0%N -> q <> total_pages fresh_db ->
                 disk_page s' q = disk_page fresh_db q.
Proof.
  apply (allocPage_keeps_other_pages fresh_db).
  - exact fresh_db_wf.
  - by vm_compute.
Defined.

(** ** A closed pager *)

Lemma readPage_closed s p :
  fd s = None -> JsMap.get p (cache s) = None ->
  readPage p s =
    Throw (TypeError "ERR_INVALID_ARG_TYPE") (set_heap (heap s ++ [zeros PAGE_SIZE]) s).
Proof.
  intros Hd Hg. unfold readPage. run_M. rewrite Hg. cbn.
  unfold Buffer_alloc, fs_readSync. cbn. by rewrite Hd.
Qed.

Lemma writePage_closed s p b :
  fd s = None -> length (bytes_of s b) = PAGE_SIZE ->
  writePage p b s = Throw (TypeError "ERR_INVALID_ARG_TYPE") s.
Proof.
  intros Hd Hl. unfold writePage, Buffer_length. run_M.
  rewrite decide_False by (intros ?; contradiction). cbn.
  unfold fs_writeSync. by rewrite Hd.
Qed.

(** X7: after [close] every method that needs the file throws a TypeError
    (the descriptor is null and the cache is empty, so no read is a hit):
    [readPage] for every page, [writePage] of a 4 KiB buffer, which leaves
    the state as it is, and [allocPage]. *)
Theorem closed_pager_throws s d s1 :
  fd s = Some d -> close s = Return tt s1 ->
  (forall p, exists s',
      readPage p s1 = Throw (TypeError "ERR_INVALID_ARG_TYPE") s'
      /\ cache s' = [] /\ fd s' = None /\ files s' = files s1)
  /\ (forall p b, length (bytes_of s1 b) = PAGE_SIZE ->
        writePage p b s1 = Throw (TypeError "ERR_INVALID_ARG_TYPE") s1)
  /\ (exists s', allocPage s1 = Throw (TypeError "ERR_INVALID_ARG_TYPE") s').
Proof.
  intros Hd Hclose. destruct (close_opened s d s1 Hd Hclose) as [Hfd Hcache].
  assert (forall p, JsMap.get p (cache s1) = None) as Hg by (intros p; by rewrite Hcache).
  split; [|split].
  - intros p. rewrite (readPage_closed s1 p Hfd (Hg p)). eexists. split; [reflexivity|].
    cbn. by rewrite Hcache, Hfd.
  - intros p b Hl. by apply writePage_closed.
  - eexists. unfold allocPage. apply bind_Throw. by apply readPage_closed.
Qed.

Lemma closed_pager_throws_witness :
  exists s1,
    close fresh_db = Return tt s1
    /\ (forall p, exists s',
          readPage p s1 = Throw (TypeError "ERR_INVALID_ARG_TYPE") s'
          /\ cache s' = [] /\ fd s' = None /\ files s' = files s1)
    /\ (forall p b, length (bytes_of s1 b) = PAGE_SIZE ->
          writePage p b s1 = Throw (TypeError "ERR_INVALID_ARG_TYPE") s1)
    /\ (exists s', allocPage s1 = Throw (TypeError "ERR_INVALID_ARG_TYPE") s').
Proof.
  eexists. split; [vm_compute; reflexivity|].
  eapply (closed_pager_throws fresh_db 0); vm_compute; reflexivity.
Defined.

(** ** Invariants of the reachable states *)

Lemma preserves_bind {A B} (P : State -> Prop) (m : M A) (f : A -> M B) :
  preserves P m -> (forall a, preserves P (f a)) -> preserves P (m ≫= f).
Proof.
  intros Hm Hf s Hs. unfold mbind, M_bind. specialize (Hm s Hs).
  destruct (m s) as [a s'|e s']; cbn [state_of] in *; [by apply Hf|done].
Qed.

Lemma preserves_ret {A} (P : State -> Prop) (a : A) : preserves P (mret a).
Proof. intros s Hs. exact Hs. Qed.

Lemma NoDup_keys_delete {V} k (m : JsMap.t V) :
  NoDup (map fst m) -> NoDup (map fst (JsMap.delete k m)).
Proof.
  induction m as [|e m IH]; [done|]. rewrite delete_cons. cbn [map].
  intros Hnd. apply NoDup_cons in Hnd as [Hnotin Hnd].
  destruct (JsMap.key_is k e); [by apply IH|].
  cbn [map]. apply NoDup_cons. split; [|by apply IH].
  intros Hin. apply Hnotin. apply list_elem_of_In in Hin. apply list_elem_of_In.
  apply in_map_iff in Hin as (x & Hx & Hin). apply in_map_iff. exists x.
  split; [done|]. unfold JsMap.delete in Hin. by apply List.filter_In in Hin as [Hin _].
Qed.

Lemma get_None_not_key {V} k (m : JsMap.t V) :
  JsMap.get k m = None -> ~ In k (map fst m).
Proof.
  induction m as [|e m IH]; [intros _ []|]. cbn [JsMap.get map].
  destruct (JsMap.key_is k e) eqn:E; [discriminate|].
  intros Hg [Hin|Hin]; [|by apply IH]. apply key_is_false in E. congruence.
Qed.

Lemma NoDup_keys_set {V} k (v : V) (m : JsMap.t V) :
  NoDup (map fst m) -> NoDup (map fst (JsMap.set k v m)).
Proof.
  intros Hnd. destruct (JsMap.get k m) as [w|] eqn:Hg.
  - rewrite keys_set_old by congruence. done.
  - unfold JsMap.set. rewrite has_get, Hg, map_app. cbn.
    apply NoDup_app. split; [done|]. split; [|apply NoDup_singleton].
    intros x Hx Hx'. apply list_elem_of_In in Hx. apply list_elem_of_singleton in Hx'.
    subst. by apply (get_None_not_key k m).
Qed.

Lemma NoDup_keys_evict limit (c : JsMap.t BufRef) :
  NoDup (map fst c) -> NoDup (map fst (evict_over limit c)).
Proof.
  intros H. unfold evict_over. case_decide; [|done].
  destruct (JsMap.first_key c); [by apply NoDup_keys_delete|done].
Qed.

Lemma readPage_keys_distinct p : preserves keys_distinct (readPage p).
Proof.
  intros s Hs.
  destruct (JsMap.get p (cache s)) as [r0|] eqn:Hg.
  { rewrite (readPage_hit s p r0 Hg). unfold keys_distinct. cbn.
    by apply NoDup_keys_set, NoDup_keys_delete. }
  destruct (fd s) as [d|] eqn:Hd.
  - destruct (fd_content s d) as [content|] eqn:Hf.
    + rewrite (readPage_miss s p d content Hg Hd Hf). unfold keys_distinct. cbn.
      by apply NoDup_keys_evict, NoDup_keys_set.
    + assert (readPage p s = Throw (SystemError "EBADF") (set_heap (heap s ++ [zeros PAGE_SIZE]) s))
        as ->; [|done].
      unfold readPage. run_M. rewrite Hg. cbn. unfold Buffer_alloc, fs_readSync. cbn.
      rewrite Hd. change (fd_content _ d) with (fd_content s d). by rewrite Hf.
  - by rewrite (readPage_closed s p Hd Hg).
Qed.

Lemma writePage_keys_distinct p b : preserves keys_distinct (writePage p b).
Proof.
  intros s Hs. destruct (writePage p b s) as [[] s'|e s'] eqn:Hw; cbn [state_of].
  - revert Hw. unfold writePage, Buffer_length. run_M. case_decide; cbn; [discriminate|].
    destruct (fs_writeSync _ _ _ _ _ _) as [n s1|] eqn:Hws; [|discriminate].
    intros [= <-]. unfold keys_distinct. cbn.
    assert (cache s1 = cache s) as ->.
    { revert Hws. unfold fs_writeSync. destruct (fd s) as [d|]; [|discriminate].
      destruct (fd_path s d) as [path|]; [|discriminate].
      destruct (files s !! path); [|discriminate]. by intros [= _ <-]. }
    by apply NoDup_keys_set.
  - by rewrite (writePage_throw_unchanged s p b e s' Hw).
Qed.

Lemma heap_op_keys_distinct {A} (m : M A) :
  (forall s, cache (state_of (m s)) = cache s) -> preserves keys_distinct m.
Proof. intros H s Hs. unfold keys_distinct. by rewrite H. Qed.

Lemma Buffer_readUInt32LE_cache b o s :
  cache (state_of (Buffer_readUInt32LE b o s)) = cache s.
Proof.
  unfold Buffer_readUInt32LE, Buffer_readUIntLE. by case_decide.
Qed.

Lemma Buffer_writeUIntLE_cache w b v o s :
  cache (state_of (Buffer_writeUIntLE w b v o s)) = cache s.
Proof.
  unfold Buffer_writeUIntLE. by repeat case_decide.
Qed.

Lemma allocPage_keys_distinct : preserves keys_distinct allocPage.
Proof.
  unfold allocPage.
  apply preserves_bind; [apply readPage_keys_distinct|intros page0].
  apply preserves_bind; [apply heap_op_keys_distinct, Buffer_readUInt32LE_cache|intros T].
  cbv zeta.
  apply preserves_bind; [apply heap_op_keys_distinct, Buffer_writeUIntLE_cache|intros _].
  apply preserves_bind; [apply writePage_keys_distinct|intros _].
  apply preserves_bind; [by apply heap_op_keys_distinct|intros newPage].
  apply preserves_bind; [apply heap_op_keys_distinct, Buffer_writeUIntLE_cache|intros _].
  apply preserves_bind; [apply heap_op_keys_distinct, Buffer_writeUIntLE_cache|intros _].
  apply preserves_bind; [apply heap_op_keys_distinct, Buffer_writeUIntLE_cache|intros _].
  apply preserves_bind; [apply writePage_keys_distinct|intros _].
  apply preserves_ret.
Qed.

Lemma run_call_wf c s : wf s -> wf (run_call c s).
Proof.
  intros Hwf. destruct c as [|p|p buf|bytes]; cbn [run_call].
  - destruct (allocPage_spec s Hwf) as [Hret Hthrow]. cbv zeta in Hret, Hthrow.
    destruct (decide (total_pages s + 1 < 2 ^ 32)%N) as [Hlt|Hge].
    + by destruct (Hret Hlt) as (s' & -> & Hwf' & _).
    + destruct Hthrow as (r & s' & Hread & ->); [lia|]. cbn [state_of].
      destruct (readPage_spec s 0%N Hwf) as (r' & s'' & Hr & _ & Hwf' & _).
      rewrite Hread in Hr. by injection Hr as _ <-.
  - by destruct (readPage_spec s p Hwf) as (r & s' & -> & _ & Hwf' & _).
  - destruct (decide (length (bytes_of s buf) = PAGE_SIZE)) as [Hl|Hl].
    + by destruct (writePage_spec s p buf Hwf Hl) as (s' & -> & Hwf' & _).
    + by rewrite writePage_bad_length.
  - by destruct (Buffer_from_spec s bytes Hwf) as (Hwf' & _).
Qed.

Lemma run_call_keys_distinct c s : keys_distinct s -> keys_distinct (run_call c s).
Proof.
  intros Hs. destruct c as [|p|p buf|bytes]; cbn [run_call].
  - by apply allocPage_keys_distinct.
  - by apply readPage_keys_distinct.
  - by apply writePage_keys_distinct.
  - exact Hs.
Qed.

(** X8: in every state reached from a freshly initialised file by any calls
    of [allocPage], [readPage] and [writePage], the pager is open, every
    cached buffer has 4096 bytes, the cache keys are distinct, and
    [readPage] of any page returns a 4096-byte buffer. *)
Theorem reachable_well_formed s hi :
  reachable any_call s hi ->
  wf s /\ keys_distinct s
  /\ forall p, exists r s',
       readPage p s = Return r s' /\ length (bytes_of s' r) = PAGE_SIZE.
Proof.
  intros Hreach.
  assert (wf s /\ keys_distinct s) as [Hwf Hk].
  { induction Hreach as [boot path s Hnone Hnew|s hi c _ [IHwf IHk] _].
    - rewrite (Pager_new_fresh boot path Hnone) in Hnew. injection Hnew as <-.
      split; [|by constructor]. split; [|by constructor].
      exists (length (fdtab boot)). eexists. split; [done|].
      unfold fd_content, fd_path. cbn. rewrite list_lookup_middle by done. cbn.
      apply lookup_insert_eq.
    - split; [by apply run_call_wf|by apply run_call_keys_distinct]. }
  split; [done|]. split; [done|]. intros p.
  destruct (readPage_spec s p Hwf) as (r & s' & Hr & Hb & _).
  exists r, s'. split; [done|]. rewrite Hb. by apply length_page_view.
Qed.

Lemma reachable_well_formed_witness :
  wf (run_call CallAlloc fresh_db) /\ keys_distinct (run_call CallAlloc fresh_db)
  /\ forall p, exists r s',
       readPage p (run_call CallAlloc fresh_db) = Return r s'
       /\ length (bytes_of s' r) = PAGE_SIZE.
Proof.
  apply (reachable_well_formed (run_call CallAlloc fresh_db)
           (highest_after CallAlloc fresh_db 0)).
  apply reach_step; [|exact I].
  apply (reach_init any_call boot "kebun.sawit"); vm_compute; reflexivity.
Defined.

(** ** Eviction *)




(** X10: calls of [readPage] alone never push the cache over its limit and
    never change the file. *)
Theorem reads_keep_limit calls s :
  wf s -> Forall is_read calls -> JsMap.size (cache s) <= cacheLimit s ->
  let s' := run_calls calls s in
  JsMap.size (cache s') <= cacheLimit s' /\ cacheLimit s' = cacheLimit s
  /\ disk s' = disk s.
Proof.
  intros Hwf Hall. revert s Hwf.
  induction Hall as [|c calls Hc _ IH]; intros s Hwf Hsize; cbv zeta; [done|].
  destruct c as [|p|p buf|bytes]; try destruct Hc. cbn [run_calls foldl run_call].
  destruct (readPage_keeps_limit s p Hwf Hsize) as [Hsize' Hlim']. cbv zeta in Hsize'.
  destruct (readPage_spec s p Hwf) as (r & s1 & Hr & _ & Hwf1 & Hdisk1 & _).
  rewrite Hr in *. cbn [state_of] in *.
  destruct (IH s1 Hwf1 Hsize') as (H1 & H2 & H3).
  split; [exact H1|]. split; [by rewrite <- Hlim'|by rewrite <- Hdisk1].
Qed.

Lemma reads_keep_limit_witness :
  let s' := run_calls [CallRead 3%N; CallRead 0%N; CallRead 3%N] fresh_db in
  JsMap.size (cache s') <= cacheLimit s' /\ cacheLimit s' = cacheLimit fresh_db
  /\ disk s' = disk fresh_db.
Proof.
  apply (reads_keep_limit [CallRead 3%N; CallRead 0%N; CallRead 3%N] fresh_db).
  - exact fresh_db_wf.
  - repeat constructor.
  - apply Nat.leb_le. by vm_compute.
Defined.

(** ** The same buffer twice *)

(** X11: with a limit of at least 1, the page just read is cached, and
    reading it again returns the same buffer object without allocating
    another one. *)
Theorem readPage_same_buffer s p r s1 :
  opened s -> 1 <= cacheLimit s -> readPage p s = Return r s1 ->
  JsMap.get p (cache s1) = Some r
  /\ exists s2, readPage p s1 = Return r s2 /\ heap s2 = heap s1.
Proof.
  intros (d & content & Hd & Hf) Hlim Hr.
  assert (JsMap.get p (cache s1) = Some r) as Hg1.
  { destruct (JsMap.get p (cache s)) as [r0|] eqn:Hg.
    - rewrite (readPage_hit s p r0 Hg) in Hr. injection Hr as <- <-. cbn.
      rewrite get_set. by rewrite decide_True.
    - rewrite (readPage_miss s p d content Hg Hd Hf) in Hr. injection Hr as <- <-.
      unfold set_cache, set_heap. cbn [cache cacheLimit].
      unfold evict_over. rewrite size_set, Hg.
      case_decide as Hlt; [|rewrite get_set; by rewrite decide_True].
      unfold JsMap.set. rewrite has_get, Hg.
      destruct (cache s) as [|[k v] c] eqn:Hc; [cbn in Hlt; lia|].
      cbn [app JsMap.first_key map fst head].
      change ((k, v) :: c ++ [(p, length (heap s))])
        with (((k, v) :: c) ++ [(p, length (heap s))]).
      rewrite get_delete. rewrite decide_False.
      + rewrite get_app, Hg. cbn. unfold JsMap.key_is. cbn. by rewrite N.eqb_refl.
      + intros ->. cbn in Hg. unfold JsMap.key_is in Hg. cbn in Hg.
        by rewrite N.eqb_refl in Hg. }
  split; [done|]. rewrite (readPage_hit s1 p r Hg1). by eexists.
Qed.

Lemma readPage_same_buffer_witness :
  exists r s1,
    readPage 3%N fresh_db = Return r s1
    /\ JsMap.get 3%N (cache s1) = Some r
    /\ exists s2, readPage 3%N s1 = Return r s2 /\ heap s2 = heap s1.
Proof.
  destruct (readPage 3%N fresh_db) as [r s1|e s1] eqn:Hr.
  - exists r, s1. split; [reflexivity|].
    apply (readPage_same_buffer fresh_db 3%N r s1).
    + vm_compute. eexists _, _. split; reflexivity.
    + apply Nat.leb_le. by vm_compute.
    + exact Hr.
  - exfalso. vm_compute in Hr. discriminate.
Defined.

(** * Further properties of the permissions *)

Section Permissions.
Import SecurityManager.
Implicit Types (m : Manager) (u tbl act : string) (p : Permission).

Lemma same_spec u tbl act p : same u tbl act p = true <-> p = mkPermission u tbl act.
Proof.
  unfold same. rewrite !andb_true_iff, !String.eqb_eq. destruct p as [pu pt pa]. cbn.
  split; [intros [[-> ->] ->]; done|intros [= -> -> ->]; done].
Qed.

Lemma same_false u tbl act p : same u tbl act p = false <-> p <> mkPermission u tbl act.
Proof. rewrite <- same_spec. by destruct (same u tbl act p). Qed.

Lemma permissions_save m : permissions (save m) = permissions m.
Proof.
  unfold save. destruct (permissionsPath m) as [path|]; [|done].
  by destruct (String.eqb path "").
Qed.

Lemma permissions_grant u tbl act m :
  permissions (grant u tbl act m).2 =
    List.filter (fun p => negb (same u tbl act p)) (permissions m) ++ [mkPermission u tbl act].
Proof. unfold grant. cbn [snd]. by rewrite permissions_save. Qed.

Lemma permissions_revoke u tbl act m :
  permissions (revoke u tbl act m).2 =
    List.filter (fun p => negb (same u tbl act p)) (permissions m).
Proof.
  unfold revoke. cbv zeta. case_decide; cbn [snd]; by rewrite permissions_save.
Qed.

Lemma filter_other_id u tbl act (l : list Permission) :
  ~ In (mkPermission u tbl act) l ->
  List.filter (fun p => negb (same u tbl act p)) l = l.
Proof.
  intros Hnot. apply forallb_filter_id, forallb_forall. intros p Hp.
  apply negb_true_iff, same_false. intros ->. contradiction.
Qed.

Lemma check_true_iff perms u tbl act :
  check perms (Some u) tbl act = inr true <->
  u = "" \/ u = "admin" \/ existsb (matches (Some u) tbl act) perms = true.
Proof.
  unfold check, falsy. destruct (String.eqb_spec u "") as [->|Hne]; [tauto|].
  case_bool_decide as Hadm; [injection Hadm as ->; tauto|].
  destruct (existsb _ perms); cbn [negb].
  - tauto.
  - split; [discriminate|]. intros [?|[?|?]]; congruence.
Qed.

(** X12: after [grant(user, table, action)] the same [check] passes. *)
Theorem grant_then_check u tbl act m :
  check (permissions (grant u tbl act m).2) (Some u) tbl act = inr true.
Proof.
  apply check_true_iff. right. right. rewrite permissions_grant.
  apply existsb_exists. exists (mkPermission u tbl act). split.
  - apply in_or_app. right. by left.
  - unfold matches. cbn. rewrite bool_decide_eq_true_2 by done.
    by rewrite !String.eqb_refl.
Qed.

Lemma filter_same_filter_other u tbl act (l : list Permission) :
  List.filter (same u tbl act) (List.filter (fun p => negb (same u tbl act p)) l) = [].
Proof.
  induction l as [|p l IH]; [done|]. cbn [List.filter].
  destruct (same u tbl act p) eqn:E; cbn [negb List.filter]; [done|]. by rewrite E.
Qed.

Lemma filter_other_idem u tbl act (l : list Permission) :
  List.filter (fun p => negb (same u tbl act p))
    (List.filter (fun p => negb (same u tbl act p)) l)
  = List.filter (fun p => negb (same u tbl act p)) l.
Proof.
  induction l as [|p l IH]; [done|]. cbn [List.filter].
  destruct (same u tbl act p) eqn:E; cbn [negb List.filter]; [done|].
  rewrite E. cbn [negb]. by rewrite IH.
Qed.

Lemma same_refl u tbl act : same u tbl act (mkPermission u tbl act) = true.
Proof. by apply same_spec. Qed.

(** X13: [grant] stores the permission exactly once, as the last entry,
    keeps every other permission in its order, and granting the same
    permission again changes nothing. *)
Theorem grant_stores_once u tbl act m :
  let m1 := (grant u tbl act m).2 in
  List.filter (same u tbl act) (permissions m1) = [mkPermission u tbl act]
  /\ last (permissions m1) = Some (mkPermission u tbl act)
  /\ List.filter (fun p => negb (same u tbl act p)) (permissions m1)
     = List.filter (fun p => negb (same u tbl act p)) (permissions m)
  /\ permissions (grant u tbl act m1).2 = permissions m1.
Proof.
  cbv zeta. rewrite !permissions_grant.
  rewrite !List.filter_app, filter_same_filter_other, filter_other_idem.
  cbn [List.filter]. rewrite same_refl. cbn [negb app].
  split; [done|]. split; [apply last_snoc|]. split; [by rewrite app_nil_r|].
  by rewrite app_nil_r.
Qed.

Lemma not_found_message u tbl act :
  "Izin '" +:+ act +:+ "' dicabut dari '" +:+ u +:+ "' untuk '" +:+ tbl +:+ "'."
  <> "Izin tidak ditemukan.".
Proof. cbn. discriminate. Qed.

Lemma filter_length_lt_iff u tbl act (l : list Permission) :
  length (List.filter (fun p => negb (same u tbl act p)) l) < length l
  <-> In (mkPermission u tbl act) l.
Proof.
  induction l as [|p l IH]; [cbn; split; [lia|tauto]|].
  cbn [List.filter length In].
  pose proof (List.filter_length_le (fun p => negb (same u tbl act p)) l) as Hle.
  destruct (same u tbl act p) eqn:E; cbn [negb length].
  - apply same_spec in E. split; [by left|lia].
  - apply same_false in E. rewrite <- Nat.succ_lt_mono, IH. split; [tauto|].
    intros [?|?]; [congruence|done].
Qed.

(** X14: [revoke] removes every copy of the permission and nothing else,
    keeping the order of the rest, and it answers "Izin tidak ditemukan."
    exactly when the permission was not stored. *)
Theorem revoke_removes u tbl act m :
  let r := revoke u tbl act m in
  ~ In (mkPermission u tbl act) (permissions r.2)
  /\ permissions r.2 = List.filter (fun p => negb (same u tbl act p)) (permissions m)
  /\ (forall p, p <> mkPermission u tbl act ->
        (In p (permissions r.2) <-> In p (permissions m)))
  /\ (r.1 = "Izin tidak ditemukan." <-> ~ In (mkPermission u tbl act) (permissions m)).
Proof.
  cbv zeta. rewrite permissions_revoke. split; [|split; [done|split]].
  - intros Hin. apply List.filter_In in Hin as [_ Hs].
    by rewrite same_refl in Hs.
  - intros p Hp. rewrite List.filter_In. apply same_false in Hp. rewrite Hp.
    cbn. tauto.
  - unfold revoke. cbv zeta. rewrite permissions_save. cbn [permissions].
    pose proof (filter_length_lt_iff u tbl act (permissions m)) as Hiff.
    case_decide as Hlt; cbn [fst].
    + split; [intros Hmsg; by apply not_found_message in Hmsg|]. tauto.
    + split; [tauto|done].
Qed.

(** X15: revoking a permission right after granting it restores the list,
    when the permission was not stored before. *)
Theorem revoke_after_grant u tbl act m :
  ~ In (mkPermission u tbl act) (permissions m) ->
  permissions (revoke u tbl act (grant u tbl act m).2).2 = permissions m.
Proof.
  intros Hnot. rewrite permissions_revoke, permissions_grant.
  rewrite List.filter_app, filter_other_idem. cbn [List.filter].
  rewrite same_refl. cbn [negb]. rewrite app_nil_r. by apply filter_other_id.
Qed.

Lemma revoke_after_grant_witness :
  permissions (revoke "alice" "kebun" "read"
                 (grant "alice" "kebun" "read"
                    (mkManager ∅ [mkPermission "bob" "*" "all"] None)).2).2
  = permissions (mkManager ∅ [mkPermission "bob" "*" "all"] None).
Proof.
  apply (revoke_after_grant "alice" "kebun" "read").
  cbn. intros [H|[]]. discriminate.
Defined.

Lemma matches_other_user u u' tbl act p :
  u' <> u -> user p = u -> matches (Some u') tbl act p = false.
Proof.
  intros Hne Hu. unfold matches. rewrite bool_decide_eq_false_2; [done|].
  intros [= H]. congruence.
Qed.

Lemma existsb_filter_other_user u u' tbl act t' a' (l : list Permission) :
  u' <> u ->
  existsb (matches (Some u') t' a') (List.filter (fun p => negb (same u tbl act p)) l)
  = existsb (matches (Some u') t' a') l.
Proof.
  intros Hne. induction l as [|p l IH]; [done|]. cbn [List.filter existsb].
  destruct (same u tbl act p) eqn:E; cbn [negb existsb]; [|by rewrite IH].
  apply same_spec in E. rewrite (matches_other_user u u' t' a' p Hne) by (by subst p).
  by rewrite IH.
Qed.

Lemma check_existsb perms perms' (who : option string) tbl act :
  existsb (matches who tbl act) perms = existsb (matches who tbl act) perms' ->
  check perms who tbl act = check perms' who tbl act.
Proof. intros H. unfold check. by rewrite H. Qed.

(** X16: granting or revoking a permission of one user changes no answer
    of [check] for any other user. *)
Theorem other_users_unaffected u tbl act m u' t' a' :
  u' <> u ->
  check (permissions (grant u tbl act m).2) (Some u') t' a'
    = check (permissions m) (Some u') t' a'
  /\ check (permissions (revoke u tbl act m).2) (Some u') t' a'
     = check (permissions m) (Some u') t' a'.
Proof.
  intros Hne. split; apply check_existsb.
  - rewrite permissions_grant, existsb_app, existsb_filter_other_user by done.
    cbn [existsb].
    rewrite (matches_other_user u u' t' a' (mkPermission u tbl act) Hne) by done.
    by rewrite !orb_false_r.
  - by rewrite permissions_revoke, existsb_filter_other_user.
Qed.

Lemma other_users_unaffected_witness :
  let m := mkManager ∅ [mkPermission "bob" "kebun" "read"] None in
  check (permissions (grant "alice" "kebun" "write" m).2) (Some "bob") "kebun" "read"
    = check (permissions m) (Some "bob") "kebun" "read"
  /\ check (permissions (revoke "alice" "kebun" "write" m).2) (Some "bob") "kebun" "read"
     = check (permissions m) (Some "bob") "kebun" "read".
Proof.
  cbv zeta. apply (other_users_unaffected "alice" "kebun" "write"). discriminate.
Defined.

(** X17: after [revoke(user, table, action)] the same [check] still passes
    exactly when another stored permission of that user covers it, such
    as one for the table "*" or the action "all": revoking the specific
    permission does not take away what a wildcard gives. *)
Theorem check_after_revoke u tbl act m :
  u <> "" -> u <> "admin" ->
  check (permissions (revoke u tbl act m).2) (Some u) tbl act = inr true
  <-> exists p, In p (permissions m) /\ p <> mkPermission u tbl act
                /\ user p = u /\ (table p = tbl \/ table p = "*")
                /\ (action p = act \/ action p = "all").
Proof.
  intros Hne Hadm. rewrite check_true_iff, permissions_revoke.
  split.
  - intros [?|[?|Hex]]; [done|done|].
    apply existsb_exists in Hex as (p & Hin & Hm).
    apply List.filter_In in Hin as [Hin Hs]. apply negb_true_iff, same_false in Hs.
    apply matches_spec in Hm as ([= Hu] & Ht & Ha). by exists p.
  - intros (p & Hin & Hp & Hu & Ht & Ha). right. right.
    apply existsb_exists. exists p. split.
    + apply List.filter_In. split; [done|]. by apply negb_true_iff, same_false.
    + apply matches_spec. by rewrite Hu.
Qed.

Lemma check_after_revoke_witness :
  let m := mkManager ∅ [mkPermission "alice" "*" "all"; mkPermission "alice" "kebun" "read"]
             None in
  check (permissions (revoke "alice" "kebun" "read" m).2) (Some "alice") "kebun" "read"
    = inr true
  <-> exists p, In p (permissions m) /\ p <> mkPermission "alice" "kebun" "read"
                /\ user p = "alice" /\ (table p = "kebun" \/ table p = "*")
                /\ (action p = "read" \/ action p = "all").
Proof.
  cbv zeta. apply (check_after_revoke "alice" "kebun" "read"); discriminate.
Defined.

(** X18: permissions survive a restart once [init] has run: [grant] and
    [revoke] write the new list to the sidecar file, and [init] of a new
    manager on that file loads the same list.  Before [init] the path is
    null and nothing is written. *)
Theorem permissions_survive_restart fs path u tbl act :
  path <> "" ->
  let m0 := init path (Manager_new fs) in
  let m1 := (grant u tbl act m0).2 in
  let m2 := (revoke u tbl act m0).2 in
  sidecars m1 !! path = Some (JsonText (permissions m1))
  /\ permissions (init path (Manager_new (sidecars m1))) = permissions m1
  /\ permissions (init path (Manager_new (sidecars m2))) = permissions m2
  /\ sidecars (grant u tbl act (Manager_new fs)).2 = fs
  /\ sidecars (revoke u tbl act (Manager_new fs)).2 = fs.
Proof.
  intros Hpath. cbv zeta. apply String.eqb_neq in Hpath.
  assert (forall m, permissionsPath m = Some path ->
            sidecars (save m) !! path = Some (JsonText (permissions m))) as Hsave.
  { intros m Hp. unfold save. rewrite Hp, Hpath. cbn. apply lookup_insert_eq. }
  assert (permissionsPath (init path (Manager_new fs)) = Some path) as Hp0.
  { unfold init, Manager_new. cbn. destruct (fs !! path) as [[l|]|]; [done|done|].
    unfold save. cbn. by rewrite Hpath. }
  assert (forall fs' l, fs' !! path = Some (JsonText l) ->
            permissions (init path (Manager_new fs')) = l) as Hinit.
  { intros fs' l Hl. unfold init, Manager_new. cbn. by rewrite Hl. }
  split; [|split; [|split; [|split]]].
  - unfold grant. cbn [snd]. rewrite Hsave by done. by rewrite permissions_save.
  - apply Hinit. unfold grant. cbn [snd]. rewrite Hsave by done.
    by rewrite permissions_save.
  - apply Hinit. unfold revoke. cbv zeta. case_decide; cbn [snd];
      (rewrite Hsave by done); by rewrite permissions_save.
  - reflexivity.
  - unfold revoke. cbv zeta. by case_decide.
Qed.

Lemma permissions_survive_restart_witness :
  let m0 := init "db/_permissions.json" (Manager_new ∅) in
  let m1 := (grant "alice" "kebun" "read" m0).2 in
  let m2 := (revoke "alice" "kebun" "read" m0).2 in
  sidecars m1 !! "db/_permissions.json" = Some (JsonText (permissions m1))
  /\ permissions (init "db/_permissions.json" (Manager_new (sidecars m1))) = permissions m1
  /\ permissions (init "db/_permissions.json" (Manager_new (sidecars m2))) = permissions m2
  /\ sidecars (grant "alice" "kebun" "read" (Manager_new ∅)).2 = ∅
  /\ sidecars (revoke "alice" "kebun" "read" (Manager_new ∅)).2 = ∅.
Proof.
  apply (permissions_survive_restart ∅ "db/_permissions.json" "alice" "kebun" "read").
  discriminate.
Defined.

(** X19: [init] with no sidecar file creates it with the empty list, and
    [init] on a file that does not parse leaves the file alone; either way
    the manager starts with no permissions, so [check] admits only an
    absent user and "admin" and throws for everybody else. *)
Theorem init_without_permissions fs path u tbl act :
  path <> "" -> fs !! path = None \/ fs !! path = Some BadText ->
  let m := init path (Manager_new fs) in
  permissions m = []
  /\ (fs !! path = None -> sidecars m = <[path := JsonText []]> fs)
  /\ (fs !! path = Some BadText -> sidecars m = fs)
  /\ (u <> "" -> u <> "admin" ->
        check (permissions m) (Some u) tbl act = inl (denied (Some u) tbl act)).
Proof.
  intros Hpath Hfile. cbv zeta. apply String.eqb_neq in Hpath.
  assert (permissions (init path (Manager_new fs)) = []) as Hperm.
  { unfold init, Manager_new. cbn. destruct Hfile as [-> | ->]; [|done].
    unfold save. cbn. by rewrite Hpath. }
  split; [done|]. split; [|split].
  - intros Hnone. unfold init, Manager_new. cbn. rewrite Hnone.
    unfold save. cbn. by rewrite Hpath.
  - intros Hbad. unfold init, Manager_new. cbn. by rewrite Hbad.
  - intros Hu Hadm. rewrite Hperm. unfold check, falsy.
    apply String.eqb_neq in Hu. rewrite Hu.
    rewrite bool_decide_eq_false_2 by congruence. done.
Qed.

Lemma init_without_permissions_witness :
  let m := init "db/_permissions.json" (Manager_new ∅) in
  permissions m = []
  /\ ((∅ : gmap string FileText) !! "db/_permissions.json" = None ->
      sidecars m = <["db/_permissions.json" := JsonText []]> ∅)
  /\ ((∅ : gmap string FileText) !! "db/_permissions.json" = Some BadText -> sidecars m = ∅)
  /\ ("bob" <> "" -> "bob" <> "admin" ->
        check (permissions m) (Some "bob") "kebun" "read"
        = inl (denied (Some "bob") "kebun" "read")).
Proof.
  apply (init_without_permissions ∅ "db/_permissions.json" "bob" "kebun" "read").
  - discriminate.
  - left. reflexivity.
Defined.
End Permissions.

(** * The search index *)

Section Tokenize.
Import SearchManager.

Ltac each_ascii c := destruct c as [[] [] [] [] [] [] [] []].

Lemma lower_char_word c :
  is_word (lower_char c) || is_space (lower_char c) = true ->
  is_token_char (lower_char c) || is_space (lower_char c) = true.
Proof. each_ascii c; vm_compute; congruence. Qed.

Lemma lower_char_idem c : lower_char (lower_char c) = lower_char c.
Proof. by each_ascii c. Qed.

Lemma token_char_facts c :
  is_token_char c = true ->
  lower_char c = c /\ is_word c = true /\ is_space c = false.
Proof. each_ascii c; vm_compute; intros; repeat split; congruence. Qed.

Lemma length_list_ascii_of_string s : length (list_ascii_of_string s) = String.length s.
Proof. induction s as [|c s IH]; [done|]. cbn. by rewrite IH. Qed.

Lemma split_spaces_pieces cs cur in_run piece :
  Forall (fun c => is_token_char c || is_space c = true) cs ->
  Forall (fun c => is_token_char c = true) cur ->
  In piece (split_spaces cs cur in_run) ->
  Forall (fun c => is_token_char c = true) piece.
Proof.
  revert cur in_run. induction cs as [|c cs IH]; intros cur in_run Hcs Hcur; cbn [split_spaces].
  - intros [<-|[]]. apply Forall_forall. intros x Hx%list_elem_of_In.
    apply in_rev in Hx. rewrite Forall_forall in Hcur. by apply Hcur, list_elem_of_In.
  - apply Forall_cons in Hcs as [Hc Hcs]. destruct (is_space c) eqn:Hsp.
    + destruct in_run.
      * by apply IH.
      * intros [<-|Hin].
        -- apply Forall_forall. intros x Hx%list_elem_of_In.
           apply in_rev in Hx. rewrite Forall_forall in Hcur.
           by apply Hcur, list_elem_of_In.
        -- by apply (IH [] true).
    + apply IH; [done|]. apply Forall_cons. split; [|done].
      rewrite orb_false_r in Hc. exact Hc.
Qed.

Lemma split_spaces_no_space cs cur in_run :
  Forall (fun c => is_space c = false) cs ->
  split_spaces cs cur in_run = [rev cur ++ cs].
Proof.
  revert cur in_run. induction cs as [|c cs IH]; intros cur in_run Hcs; cbn [split_spaces].
  - by rewrite app_nil_r.
  - apply Forall_cons in Hcs as [Hc Hcs]. rewrite Hc, IH by done.
    cbn [rev]. by rewrite <- app_assoc.
Qed.

(** X20: every token that [tokenize] returns has more than two code units,
    is not a stop word, and is made of a-z, 0-9 and the underscore only:
    capitals are folded and every other character is dropped. *)
Theorem tokenize_tokens text w :
  In w (tokenize text) ->
  2 < String.length w /\ is_stop_word w = false
  /\ Forall (fun c => is_token_char c = true) (list_ascii_of_string w).
Proof.
  destruct text as [s|]; [|intros []]. unfold tokenize.
  destruct (String.eqb s ""); [intros []|]. cbv zeta.
  intros Hin. apply List.filter_In in Hin as [Hin Hkeep].
  apply andb_true_iff in Hkeep as [Hlen Hstop].
  split; [by apply Nat.ltb_lt|]. split; [by apply negb_true_iff|].
  apply in_map_iff in Hin as (piece & <- & Hpiece).
  rewrite list_ascii_of_string_of_list_ascii.
  eapply (split_spaces_pieces _ [] false piece); [|by constructor|exact Hpiece].
  apply Forall_forall. intros c Hc%list_elem_of_In.
  apply List.filter_In in Hc as [Hc Hkeep].
  unfold toLowerCase in Hc. rewrite list_ascii_of_string_of_list_ascii in Hc.
  apply in_map_iff in Hc as (c0 & <- & _). by apply lower_char_word.
Qed.


Lemma tokenize_tokens_witness :
  2 < String.length "sawit" /\ is_stop_word "sawit" = false
  /\ Forall (fun c => is_token_char c = true) (list_ascii_of_string "sawit").
Proof.
  apply (tokenize_tokens (JsString "Kebun SAWIT, dan the x!") "sawit").
  vm_compute. tauto.
Defined.

(** X21: a word of more than two code units, made of a-z, 0-9 and the
    underscore, that is not a stop word, is a text of exactly one token,
    itself: what [indexRow] stores under a word, [search] finds by it. *)
Theorem tokenize_token w :
  2 < String.length w -> is_stop_word w = false ->
  Forall (fun c => is_token_char c = true) (list_ascii_of_string w) ->
  tokenize (JsString w) = [w].
Proof.
  intros Hlen Hstop Hchars. unfold tokenize.
  destruct (String.eqb_spec w "") as [->|_]; [cbn in Hlen; lia|]. cbv zeta.
  assert (map lower_char (list_ascii_of_string w) = list_ascii_of_string w) as Hlow.
  { induction Hchars as [|c cs Hc _ IH]; [done|]. cbn [map].
    rewrite IH. by destruct (token_char_facts c Hc) as (-> & _). }
  unfold toLowerCase. rewrite Hlow, string_of_list_ascii_of_string.
  assert (List.filter (fun c => is_word c || is_space c) (list_ascii_of_string w)
          = list_ascii_of_string w) as ->.
  { apply forallb_filter_id, forallb_forall. intros c Hc.
    rewrite Forall_forall in Hchars.
    by destruct (token_char_facts c (Hchars c ltac:(by apply list_elem_of_In))) as (_ & -> & _). }
  rewrite split_spaces_no_space.
  - cbn [rev app map]. rewrite string_of_list_ascii_of_string. cbn [List.filter].
    apply Nat.ltb_lt in Hlen. by rewrite Hlen, Hstop.
  - eapply Forall_impl; [exact Hchars|]. intros c Hc.
    by destruct (token_char_facts c Hc) as (_ & _ & ->).
Qed.

Lemma tokenize_token_witness : tokenize (JsString "sawit") = ["sawit"].
Proof.
  apply (tokenize_token "sawit").
  - vm_compute. lia.
  - reflexivity.
  - repeat constructor.
Defined.

Lemma toLowerCase_idem s : toLowerCase (toLowerCase s) = toLowerCase s.
Proof.
  unfold toLowerCase. rewrite list_ascii_of_string_of_list_ascii, map_map.
  f_equal. apply map_ext. intros c. apply lower_char_idem.
Qed.

Lemma toLowerCase_empty s : String.eqb (toLowerCase s) "" = String.eqb s "".
Proof. by destruct s. Qed.

(** X22: [tokenize] does not see the case of letters: a text and its
    lower-case form give the same tokens. *)
Theorem tokenize_ignores_case s :
  tokenize (JsString (toLowerCase s)) = tokenize (JsString s).
Proof.
  unfold tokenize. by rewrite toLowerCase_empty, toLowerCase_idem.
Qed.
End Tokenize.

Section Index.
Import SearchManager.
Implicit Types (ix : gmap string (list Entry)) (s : Search) (w token table : string).
Implicit Types (rowid : N) (data : list (string * JsValue)) (e : Entry).

Lemma same_row_spec table rowid e :
  same_row table rowid e = true <-> e = mkEntry table rowid.
Proof.
  unfold same_row. destruct e as [t0 i0]. cbn. split.
  - intros [H1%String.eqb_eq H2%N.eqb_eq]%andb_true_iff. by subst.
  - intros [= -> ->]. by rewrite String.eqb_refl, N.eqb_refl.
Qed.

Lemma existsb_same_row table rowid l :
  existsb (same_row table rowid) l = true <-> In (mkEntry table rowid) l.
Proof.
  rewrite existsb_exists. split.
  - intros (e & Hin & ->%same_row_spec). done.
  - intros Hin. exists (mkEntry table rowid). split; [done|]. by apply same_row_spec.
Qed.

Lemma index_token_None table rowid token ix :
  index_token table rowid token ix = None <-> index_get ix token = Inherited.
Proof.
  unfold index_token. destruct (index_get ix token) as [l| |]; [|done|done].
  by destruct (existsb _ l).
Qed.

Lemma index_token_Some table rowid token ix ix' :
  index_token table rowid token ix = Some ix' ->
  ix' = if existsb (same_row table rowid) (postings ix token) then ix
        else <[token := postings ix token ++ [mkEntry table rowid]]> ix.
Proof.
  unfold index_token, index_get, postings.
  destruct (ix !! token) as [l|]; cbn [from_option Datatypes.id app].
  - destruct (existsb _ l); intros H; by simplify_eq.
  - destruct (existsb (String.eqb token) inherited); intros H; by simplify_eq.
Qed.

Lemma postings_index_token table rowid token ix ix' w :
  index_token table rowid token ix = Some ix' ->
  postings ix' w
  = postings ix w
    ++ (if decide (w = token)
        then if existsb (same_row table rowid) (postings ix w) then []
             else [mkEntry table rowid]
        else []).
Proof.
  intros ->%index_token_Some. destruct (decide (w = token)) as [->|Hne].
  - destruct (existsb _ (postings ix token)); [by rewrite app_nil_r|].
    unfold postings at 1. by rewrite lookup_insert_eq.
  - rewrite app_nil_r. destruct (existsb _ (postings ix token)); [done|].
    unfold postings. by rewrite lookup_insert_ne.
Qed.

Lemma index_token_inherited table rowid token ix ix' w :
  index_token table rowid token ix = Some ix' ->
  index_get ix' w = Inherited <-> index_get ix w = Inherited.
Proof.
  intros Hstep. assert (index_get ix token <> Inherited) as Hown.
  { intros Hinh%(index_token_None table rowid). congruence. }
  apply index_token_Some in Hstep as ->.
  destruct (existsb _ (postings ix token)); [done|].
  destruct (decide (w = token)) as [->|Hne].
  - unfold index_get at 1. rewrite lookup_insert_eq. split; [done|]. intros; done.
  - unfold index_get. by rewrite lookup_insert_ne.
Qed.

Lemma index_token_no_empty table rowid token ix ix' :
  index_token table rowid token ix = Some ix' -> no_empty ix -> no_empty ix'.
Proof.
  intros ->%index_token_Some Hne. destruct (existsb _ (postings ix token)); [done|].
  intros w. destruct (decide (w = token)) as [->|Hw].
  - rewrite lookup_insert_eq. intros [= H]. by destruct (postings ix token).
  - rewrite lookup_insert_ne by done. apply Hne.
Qed.

Lemma index_tokens_app table rowid l1 l2 ix :
  index_tokens table rowid (l1 ++ l2) ix
  = match index_tokens table rowid l1 ix with
    | (None, ix') => index_tokens table rowid l2 ix'
    | (Some e, ix') => (Some e, ix')
    end.
Proof.
  revert ix. induction l1 as [|token l1 IH]; intros ix; [done|].
  cbn [app index_tokens]. by destruct (index_token table rowid token ix).
Qed.

Lemma index_entries_tokens table rowid data ix :
  index_entries table rowid data ix = index_tokens table rowid (row_tokens data) ix.
Proof.
  revert ix. induction data as [|[col val] data IH]; intros ix; [done|].
  unfold row_tokens. cbn [map concat snd index_entries].
  rewrite index_tokens_app.
  destruct (index_tokens table rowid (tokenize val) ix) as [[err|] ix']; [done|].
  apply IH.
Qed.

(** The loop throws exactly when it meets a word that resolves to an
    inherited property. *)
Lemma index_tokens_throws table rowid tokens ix :
  (exists w, In w tokens /\ index_get ix w = Inherited) ->
  exists err ix', index_tokens table rowid tokens ix = (Some err, ix').
Proof.
  revert ix. induction tokens as [|token tokens IH]; intros ix (w & Hin & Hinh).
  - destruct Hin.
  - cbn [index_tokens]. destruct (index_token table rowid token ix) as [ix'|] eqn:Hstep.
    + apply IH. exists w. split.
      * destruct Hin as [<-|Hin]; [|done].
        apply (index_token_None table rowid) in Hinh. congruence.
      * by apply (index_token_inherited _ _ _ _ _ w Hstep).
    + by eexists _, _.
Qed.

Lemma index_tokens_returns table rowid tokens ix :
  (forall w, In w tokens -> index_get ix w <> Inherited) ->
  exists ix', index_tokens table rowid tokens ix = (None, ix').
Proof.
  revert ix. induction tokens as [|token tokens IH]; intros ix Hall.
  - by eexists.
  - cbn [index_tokens]. destruct (index_token table rowid token ix) as [ix'|] eqn:Hstep.
    + apply IH. intros w Hin Hinh.
      apply (index_token_inherited _ _ _ _ _ w Hstep) in Hinh.
      by apply (Hall w); [right|].
    + apply index_token_None in Hstep. by destruct (Hall token); [left|].
Qed.

(** What the loop does to the postings of a word: it appends the row at
    most once, and only under a word of the list that does not yet hold it. *)
Lemma index_tokens_postings table rowid tokens ix err ix' w :
  index_tokens table rowid tokens ix = (err, ix') ->
  postings ix' w = postings ix w
  \/ (postings ix' w = postings ix w ++ [mkEntry table rowid]
      /\ In w tokens /\ ~ In (mkEntry table rowid) (postings ix w)).
Proof.
  revert ix. induction tokens as [|token tokens IH]; intros ix; cbn [index_tokens].
  - intros [= _ <-]. by left.
  - destruct (index_token table rowid token ix) as [ix1|] eqn:Hstep.
    + intros Hrest. pose proof (postings_index_token _ _ _ _ _ w Hstep) as H1.
      destruct (IH _ Hrest) as [H2|(H2 & Hin & Hnew)].
      * rewrite H2, H1. destruct (decide (w = token)) as [->|Hne].
        -- destruct (existsb _ (postings ix token)) eqn:Hex; [left; by rewrite app_nil_r|].
           right. split; [done|]. split; [by left|].
           intros Hin%existsb_same_row. congruence.
        -- left. by rewrite app_nil_r.
      * rewrite H2, H1. rewrite H1 in Hnew. destruct (decide (w = token)) as [->|Hne].
        -- destruct (existsb _ (postings ix token)) eqn:Hex.
           ++ right. rewrite app_nil_r in *. split; [done|]. split; [by right|done].
           ++ destruct Hnew. apply in_or_app. right. by left.
        -- right. rewrite app_nil_r in *. split; [done|]. split; [by right|done].
    + intros [= _ <-]. by left.
Qed.

Lemma index_tokens_posted table rowid tokens ix ix' w :
  index_tokens table rowid tokens ix = (None, ix') ->
  In w tokens -> In (mkEntry table rowid) (postings ix' w).
Proof.
  revert ix. induction tokens as [|token tokens IH]; intros ix; cbn [index_tokens]; [by intros _ []|].
  destruct (index_token table rowid token ix) as [ix1|] eqn:Hstep; [|done].
  intros Hrest [<-|Hin]; [|by apply (IH ix1)].
  assert (In (mkEntry table rowid) (postings ix1 token)) as H1.
  { rewrite (postings_index_token _ _ _ _ _ token Hstep).
    rewrite decide_True by done. apply in_or_app.
    destruct (existsb _ (postings ix token)) eqn:Hex.
    - left. by apply existsb_same_row.
    - right. by left. }
  destruct (index_tokens_postings _ _ _ _ _ _ token Hrest) as [->|(-> & _)]; [done|].
  apply in_or_app. by left.
Qed.

Lemma index_tokens_no_empty table rowid tokens ix err ix' :
  index_tokens table rowid tokens ix = (err, ix') -> no_empty ix -> no_empty ix'.
Proof.
  revert ix. induction tokens as [|token tokens IH]; intros ix; cbn [index_tokens].
  - by intros [= _ <-].
  - destruct (index_token table rowid token ix) as [ix1|] eqn:Hstep.
    + intros Hrest Hne. apply (IH ix1 Hrest). by eapply index_token_no_empty.
    + by intros [= _ <-].
Qed.

Lemma index_tokens_again table rowid tokens ix :
  (forall w, In w tokens -> In (mkEntry table rowid) (postings ix w)) ->
  index_tokens table rowid tokens ix = (None, ix).
Proof.
  induction tokens as [|token tokens IH]; intros Hall; [done|].
  cbn [index_tokens].
  assert (index_token table rowid token ix = Some ix) as ->.
  { pose proof (Hall token (or_introl eq_refl)) as Hin.
    unfold postings in Hin. unfold index_token, index_get.
    destruct (ix !! token) as [l|]; [|destruct Hin]. cbn in Hin.
    apply existsb_same_row in Hin. by rewrite Hin. }
  apply IH. intros w Hin. apply Hall. by right.
Qed.

Lemma index_save s : index (save s) = index s.
Proof.
  unfold save. destruct (indexPath s) as [path|]; [|done].
  by destruct (String.eqb path "").
Qed.

Lemma save_again s :
  save (mkSearch (fts_files (save s)) (index s) (indexPath (save s))) = save s.
Proof.
  unfold save. destruct s as [files ix [path|]]; cbn; [|done].
  destruct (String.eqb path "") eqn:Hp; cbn; rewrite ?Hp; [done|].
  by rewrite insert_insert_eq.
Qed.

Lemma indexRow_eq table rowid data s :
  indexRow table rowid data s
  = match index_tokens table rowid (row_tokens data) (index s) with
    | (None, ix) => (None, save (mkSearch (fts_files s) ix (indexPath s)))
    | (Some err, ix) => (Some err, mkSearch (fts_files s) ix (indexPath s))
    end.
Proof. unfold indexRow. by rewrite index_entries_tokens. Qed.

(** X23: a row with a word that names a property inherited from
    [Object.prototype] (such as "constructor"), which the index does not
    hold as a key, makes [indexRow] throw a TypeError; the index file is
    not written. *)
Theorem indexRow_inherited_word_throws table rowid data s w :
  In w (row_tokens data) -> index_get (index s) w = Inherited ->
  exists err s', indexRow table rowid data s = (Some err, s')
                 /\ fts_files s' = fts_files s.
Proof.
  intros Hin Hinh. rewrite indexRow_eq.
  destruct (index_tokens_throws table rowid (row_tokens data) (index s)) as (err & ix' & ->).
  { by exists w. }
  by eexists _, _.
Qed.

Lemma indexRow_inherited_word_throws_witness :
  exists err s',
    indexRow "notes" 7 [("body", JsString "The constructor pattern")] (Search_new ∅)
    = (Some err, s')
    /\ fts_files s' = fts_files (Search_new ∅).
Proof.
  apply (indexRow_inherited_word_throws "notes" 7 _ (Search_new ∅) "constructor").
  - vm_compute. tauto.
  - reflexivity.
Defined.

(** X24: when no word of the row resolves to an inherited property,
    [indexRow] returns, and afterwards the row is posted under every token
    of every string value of the row. *)
Theorem indexRow_posts_every_token table rowid data s :
  (forall w, In w (row_tokens data) -> index_get (index s) w <> Inherited) ->
  exists s', indexRow table rowid data s = (None, s')
             /\ forall w, In w (row_tokens data) ->
                          In (mkEntry table rowid) (postings (index s') w).
Proof.
  intros Hall. rewrite indexRow_eq.
  destruct (index_tokens_returns table rowid _ _ Hall) as (ix' & Hrun). rewrite Hrun.
  eexists. split; [done|]. intros w Hin. rewrite index_save. cbn [index].
  by eapply index_tokens_posted.
Qed.

Lemma indexRow_posts_every_token_witness :
  exists s',
    indexRow "notes" 7 [("title", JsString "Kebun Sawit"); ("size", JsOther)] (Search_new ∅)
    = (None, s')
    /\ forall w, In w (row_tokens [("title", JsString "Kebun Sawit"); ("size", JsOther)]) ->
                 In (mkEntry "notes" 7) (postings (index s') w).
Proof.
  apply (indexRow_posts_every_token "notes" 7 _ (Search_new ∅)).
  intros w Hin. vm_compute in Hin. by destruct Hin as [<-|[<-|[]]].
Defined.

(** X25: [indexRow] never removes or reorders a posting, returning or
    throwing: under each word the postings are as before, or as before
    with the row appended once, and then the word is a token of the row
    that did not hold the row yet. *)
Theorem indexRow_appends_once table rowid data s w :
  let s' := snd (indexRow table rowid data s) in
  postings (index s') w = postings (index s) w
  \/ (postings (index s') w = postings (index s) w ++ [mkEntry table rowid]
      /\ In w (row_tokens data)
      /\ ~ In (mkEntry table rowid) (postings (index s) w)).
Proof.
  cbv zeta. rewrite indexRow_eq.
  destruct (index_tokens table rowid (row_tokens data) (index s)) as [err ix'] eqn:Hrun.
  pose proof (index_tokens_postings _ _ _ _ _ _ w Hrun) as H.
  destruct err; cbn [snd]; rewrite ?index_save; exact H.
Qed.

(** X26: indexing a row a second time changes nothing, neither the index
    nor the files. *)
Theorem indexRow_twice table rowid data s s' :
  indexRow table rowid data s = (None, s') ->
  indexRow table rowid data s' = (None, s').
Proof.
  rewrite !indexRow_eq.
  destruct (index_tokens table rowid (row_tokens data) (index s)) as [[err|] ix'] eqn:Hrun; [done|].
  intros [= <-]. rewrite index_save. cbn [index].
  rewrite index_tokens_again.
  - f_equal. apply (save_again (mkSearch (fts_files s) ix' (indexPath s))).
  - intros w Hin. by eapply index_tokens_posted.
Qed.

Lemma indexRow_twice_witness :
  let data := [("title", JsString "Kebun Sawit, kebun TEH")] in
  let s' := snd (indexRow "notes" 7 data (init "db/_fts_index.json" (Search_new ∅))) in
  indexRow "notes" 7 data s' = (None, s').
Proof.
  cbv zeta.
  apply (indexRow_twice "notes" 7 _ (init "db/_fts_index.json" (Search_new ∅))).
  by vm_compute.
Defined.

Lemma postings_deindexRow table rowid s w :
  postings (index (deindexRow table rowid s)) w
  = List.filter (fun e => negb (same_row table rowid e)) (postings (index s) w).
Proof.
  unfold deindexRow. rewrite index_save. cbn [index]. unfold postings.
  rewrite lookup_omap. destruct (index s !! w) as [l|]; [|done]. cbn.
  destruct (decide _) as [Hnil|_]; [|done]. cbn.
  by destruct (List.filter _ l).
Qed.

(** X27: [deindexRow] removes the row from the postings of every word and
    nothing else, keeping the order of the others, and it leaves no word
    with an empty list of postings. *)
Theorem deindexRow_removes_row table rowid s w :
  postings (index (deindexRow table rowid s)) w
  = List.filter (fun e => negb (same_row table rowid e)) (postings (index s) w)
  /\ ~ In (mkEntry table rowid) (postings (index (deindexRow table rowid s)) w)
  /\ index (deindexRow table rowid s) !! w <> Some [].
Proof.
  split; [apply postings_deindexRow|]. split.
  - rewrite postings_deindexRow. intros [_ Hkeep]%List.filter_In.
    apply negb_true_iff in Hkeep.
    assert (same_row table rowid (mkEntry table rowid) = true) by by apply same_row_spec.
    congruence.
  - unfold deindexRow. rewrite index_save. cbn [index]. rewrite lookup_omap.
    destruct (index s !! w) as [l|]; [|done]. cbn.
    destruct (decide _) as [Hnil|Hcons]; [done|]. intros [= Heq].
    by rewrite Heq in Hcons.
Qed.

Lemma filter_other_rows table rowid l :
  ~ In (mkEntry table rowid) l ->
  List.filter (fun e => negb (same_row table rowid e)) l = l.
Proof.
  intros Hnot. apply forallb_filter_id, forallb_forall. intros e Hin.
  apply negb_true_iff. destruct (same_row table rowid e) eqn:Hsame; [|done].
  apply same_row_spec in Hsame. by subst.
Qed.

Lemma no_empty_check ix :
  forallb (fun kl => negb (length (snd kl) =? 0)) (map_to_list ix) = true ->
  no_empty ix.
Proof.
  intros Hall w Hw. rewrite forallb_forall in Hall.
  apply elem_of_map_to_list, list_elem_of_In, Hall in Hw. done.
Qed.

Lemma not_posted_check table rowid ix :
  forallb (fun kl => negb (existsb (same_row table rowid) (snd kl))) (map_to_list ix) = true ->
  forall w, ~ In (mkEntry table rowid) (postings ix w).
Proof.
  intros Hall w Hin. rewrite forallb_forall in Hall. unfold postings in Hin.
  destruct (ix !! w) as [l|] eqn:Hw; [|done]. cbn in Hin.
  apply elem_of_map_to_list, list_elem_of_In, Hall in Hw. cbn in Hw.
  apply negb_true_iff in Hw. apply existsb_same_row in Hin. congruence.
Qed.

(** X28: [deindexRow] undoes [indexRow]: when the row was not in the index
    and no word had an empty list, removing the row after indexing it gives
    the index back, key by key. *)
Theorem deindexRow_undoes_indexRow table rowid data s s' :
  no_empty (index s) ->
  (forall w, ~ In (mkEntry table rowid) (postings (index s) w)) ->
  indexRow table rowid data s = (None, s') ->
  index (deindexRow table rowid s') = index s.
Proof.
  intros Hne Hnew. rewrite indexRow_eq.
  destruct (index_tokens table rowid (row_tokens data) (index s)) as [[err|] ix'] eqn:Hrun; [done|].
  intros [= <-]. apply map_eq. intros w.
  pose proof (index_tokens_no_empty _ _ _ _ _ _ Hrun Hne w) as Hne'.
  pose proof (index_tokens_postings _ _ _ _ _ _ w Hrun) as Hpost.
  unfold deindexRow. rewrite !index_save. cbn [index]. rewrite lookup_omap.
  specialize (Hnew w). specialize (Hne w). unfold postings in *.
  assert (forall l, List.filter (fun e => negb (same_row table rowid e))
                      (l ++ [mkEntry table rowid])
                    = List.filter (fun e => negb (same_row table rowid e)) l) as Hdrop.
  { intros l. rewrite List.filter_app. cbn [List.filter].
    assert (same_row table rowid (mkEntry table rowid) = true) as -> by by apply same_row_spec.
    by rewrite app_nil_r. }
  destruct (ix' !! w) as [l'|], (index s !! w) as [l|]; cbn in *.
  - destruct Hpost as [->|(-> & _)]; rewrite ?Hdrop, filter_other_rows by done;
      (destruct (decide _) as [Hnil|_]; [by destruct l|done]).
  - destruct Hpost as [->|(-> & _)]; [done|]. cbn.
    assert (same_row table rowid (mkEntry table rowid) = true) as -> by by apply same_row_spec.
    done.
  - destruct Hpost as [<-|(Heq & _)]; [done|]. by destruct l.
  - done.
Qed.

Lemma deindexRow_undoes_indexRow_witness :
  let data := [("title", JsString "Kebun Sawit")] in
  let s := snd (indexRow "notes" 3 [("title", JsString "Kebun teh")] (Search_new ∅)) in
  index (deindexRow "notes" 7 (snd (indexRow "notes" 7 data s))) = index s.
Proof.
  cbv zeta.
  apply (deindexRow_undoes_indexRow "notes" 7 [("title", JsString "Kebun Sawit")]).
  - apply no_empty_check. by vm_compute.
  - apply not_posted_check. by vm_compute.
  - by vm_compute.
Defined.

(** X29: the index outlives the manager: after [init] with a path, what
    [indexRow] has stored is what a new manager reads back with [init] from
    the files left behind. *)
Theorem index_survives_restart table rowid data path s s' :
  indexPath s = Some path -> path <> "" ->
  indexRow table rowid data s = (None, s') ->
  index (init path (Search_new (fts_files s'))) = index s'.
Proof.
  intros Hpath Hne. rewrite indexRow_eq.
  destruct (index_tokens table rowid (row_tokens data) (index s)) as [[err|] ix'] eqn:Hrun; [done|].
  intros [= <-]. unfold save, init. cbn [indexPath]. rewrite Hpath.
  apply String.eqb_neq in Hne. rewrite Hne. cbn [fts_files Search_new index].
  by rewrite lookup_insert_eq.
Qed.

Lemma index_survives_restart_witness :
  let s := init "db/_fts_index.json" (Search_new ∅) in
  let s' := snd (indexRow "notes" 7 [("title", JsString "Kebun Sawit")] s) in
  index (init "db/_fts_index.json" (Search_new (fts_files s'))) = index s'.
Proof.
  cbv zeta.
  apply (index_survives_restart "notes" 7 [("title", JsString "Kebun Sawit")]
           "db/_fts_index.json" (init "db/_fts_index.json" (Search_new ∅))).
  - reflexivity.
  - discriminate.
  - by vm_compute.
Defined.
End Index.
